(** * Hamilton driver: input validation and execution orchestration

    A shallow embedding of [hamilton/driver.py] (class [Driver]).  The
    driver owns one function graph and one graph adapter; it validates the
    user-supplied inputs of a request and then delegates execution to the
    graph.  The graph engine ([hamilton/graph.py]), the node model
    ([hamilton/node.py]) and the adapters ([hamilton/base.py]) are
    collaborators of the driver: they appear here as interfaces whose
    methods the driver calls. *)

From Stdlib Require Import Ascii.
From stdpp Require Import base option list gmap strings sorting pretty.

Set Default Proof Using "Type".
Set Warnings "-register-all".

Module Hamilton.

(** ** Python runtime values and exceptions *)

(** The fragment of the exception hierarchy the driver distinguishes:
    [except Exception] catches every class below [Exception];
    [except ImportError] catches [ImportError] and its subclass
    [ModuleNotFoundError]; [SystemExit] and [KeyboardInterrupt] derive from
    [BaseException] only. *)
Inductive ExcClass : Type :=
| ValueError
| KeyError
| ImportError
| ModuleNotFoundError
| RuntimeError
| RecursionError
| SystemExit
| KeyboardInterrupt.

Record PyExc : Type := Raise { exc_class : ExcClass; exc_str : string }.

Definition isinstance_Exception (e : PyExc) : bool :=
  match exc_class e with
  | SystemExit | KeyboardInterrupt => false
  | _ => true
  end.

Definition isinstance_ImportError (e : PyExc) : bool :=
  match exc_class e with
  | ImportError | ModuleNotFoundError => true
  | _ => false
  end.

(** A Python value is [None] or some other object. *)
Inductive PyValue (V : Type) : Type :=
| PyNone
| PyObj (v : V).
Arguments PyNone {V}.
Arguments PyObj {V} v.

(** Modelled from the spec: [node.DependencyType] lives in
    [hamilton/node.py]; the spec gives it the two members REQUIRED and
    OPTIONAL. *)
Inductive DependencyType : Type := REQUIRED | OPTIONAL.

Definition DependencyType_eqb (a b : DependencyType) : bool :=
  match a, b with
  | REQUIRED, REQUIRED | OPTIONAL, OPTIONAL => true
  | _, _ => false
  end.

(** The line feed used by the driver's messages. *)
Definition nl : string := String (ascii_of_nat 10) EmptyString.

Definition DISCORD_ERROR_MESSAGE : string :=
  "-------------------------------------------------------------------" ++ nl ++
  "Oh no an error! Need help with Hamilton?" ++ nl ++
  "Join our discord and ask for help! https://discord.gg/wCqxqBqn73" ++ nl ++
  "-------------------------------------------------------------------" ++ nl.

(** [sep.join(l)] *)
Definition join (sep : string) (l : list string) : string := String.concat sep l.

(** [errors.sort()] on a list of [str]: ascending in the code-point order
    of [str].  [String.le] compares byte by byte, which on UTF-8 text is
    the code-point order. *)
Definition sort (l : list string) : list string := merge_sort String.le l.

(** The Python runtime the driver runs in.  [Ty]: type descriptors
    ([node.type]); [Obj]: Python objects other than [None]; [Res]: what the
    adapter's [build_result] returns; [PyModule]: the module objects handed
    to the constructor; [str_type], [str_obj], [repr_str]: the built-ins
    [str] and [repr] as the f-strings of [validate_inputs] use them. *)
Class PyRuntime : Type := {
  Ty : Type;
  Obj : Type;
  Res : Type;
  PyModule : Type;
  str_type : Ty → string;
  str_obj : Obj → string;
  repr_str : string → string
}.

(** Values and [dict]s keyed by [str]. *)
Abbreviation Value := (PyValue Obj).
Abbreviation PyDict := (gmap string (PyValue Obj)).

Section Model.

Context `{rt : PyRuntime}.

Definition str_value (v : Value) : string :=
  match v with
  | PyNone => "None"
  | PyObj o => str_obj o
  end.

(** [str] of a list of [str]: the [repr] of each element, comma separated. *)
Definition str_list (l : list string) : string :=
  "[" ++ join ", " (map repr_str l) ++ "]".

(** ** Nodes

    The fields of [node.Node] the driver reads.  [depended_on_by] holds the
    dependent nodes themselves; the driver only ever looks one level down
    (at a dependent's [name] and [input_types]). *)
Inductive Node : Type := mkNode {
  name : string;
  type : Ty;
  input_types : gmap string (Ty * DependencyType);
  depended_on_by : list Node
}.

(** ** Collaborators *)

(** [base.HamiltonGraphAdapter].  [check_input_type] answers with a
    [bool] for every type and value. *)
Record HamiltonGraphAdapter : Type := {
  check_input_type : Ty → Value → bool;
  build_result : list (string * Value) → PyExc + Res
}.

(** [graph.FunctionGraph]: the methods and the attribute the driver uses.
    A method that raises returns [inl].  The graph does not change after
    construction, so a method is a function of its arguments;
    [graph_execute] returns the memo as the call leaves it. *)
Record FunctionGraph : Type := {
  config : PyDict;
  get_upstream_nodes :
    list string → option PyDict → PyExc + (list Node * list Node);
  graph_execute :
    list Node → PyDict → option PyDict → option PyDict → PyExc + PyDict;
  graph_has_cycles : list Node → list Node → PyExc + bool;
  graph_display :
    list Node → list Node → string → gmap string bool → PyExc + unit
}.

(** ** The cycle check of the graph *)

(** Modelled from the spec: a node depends on another iff one of its
    parameters bears the other's name; a collection of nodes is cyclic
    iff some name reaches itself along one or more dependencies of the
    given nodes. *)
Definition depends_on (nodes : list Node) (a b : string) : Prop :=
  ∃ n, n ∈ nodes ∧ name n = a ∧ b ∈ dom (input_types n).

Definition contains_cycle (nodes : list Node) : Prop :=
  ∃ a, tc (depends_on nodes) a a.

(** Modelled from the spec: the graph's cycle check
    ([FunctionGraph.has_cycles], in [hamilton/graph.py]) reports whether
    the given nodes are cyclic.  Here as a depth-first search from every
    node, which follows the parameters of the nodes of the current name
    and reports a name met again on the current path; a path holds each
    name once, so one unit of fuel per node and one more are enough. *)
Fixpoint on_cycle (fuel : nat) (nodes : list Node) (path : list string)
    (nm : string) : bool :=
  match fuel with
  | 0 => false
  | S fuel =>
      if decide (nm ∈ path) then true
      else
        existsb
          (λ n, bool_decide (name n = nm) &&
                existsb (on_cycle fuel nodes (nm :: path))
                  (elements (dom (input_types n))))
          nodes
  end.

Definition spec_has_cycles (nodes : list Node) : bool :=
  existsb (λ n, on_cycle (S (length nodes)) nodes [] (name n)) nodes.

(** [path], latest name first, is a chain of dependencies that ends in
    [nm]. *)
Fixpoint linked (nodes : list Node) (path : list string) (nm : string) : Prop :=
  match path with
  | [] => True
  | p :: path => depends_on nodes p nm ∧ linked nodes path p
  end.

End Model.

(** What the driver imports from [hamilton/graph.py] and [hamilton/base.py]
    besides the classes above: the constructor of [graph.FunctionGraph]
    (called with the modules, the config and the adapter), the default
    adapter, and the exception [combine_config_and_inputs] raises on a
    clash. *)
Class GraphModule `{rt : PyRuntime} : Type := {
  FunctionGraph_init :
    list PyModule → PyDict → HamiltonGraphAdapter → PyExc + FunctionGraph;
  SimplePythonDataFrameGraphAdapter : HamiltonGraphAdapter;
  clash_error : PyDict → PyDict → PyExc
}.

Section Driver.

Context `{rt : PyRuntime} `{gm : !GraphModule}.

(** Modelled from the spec: [graph.FunctionGraph.combine_config_and_inputs]
    is defined in [hamilton/graph.py].  The spec: produce a single
    leaf-value mapping from the static config and the runtime inputs; a key
    present in both is rejected rather than one side being picked. *)
Definition combine_config_and_inputs (config inputs : PyDict) : PyExc + PyDict :=
  if decide (dom config ∩ dom inputs = (∅ : gset string))
  then inr (config ∪ inputs)
  else inl (clash_error config inputs).

(** ** Observable calls

    What a run of a driver method does to its surroundings, in program
    order: the records it logs and the collaborator methods it calls. *)
Inductive Event : Type :=
| logger_error (msg : string)
| logger_warning (msg : string)
| call_FunctionGraph (modules : list PyModule) (config : PyDict)
| call_get_upstream_nodes (final_vars : list string) (inputs : option PyDict)
| call_check_input_type (t : Ty) (v : Value)
| call_graph_display (nodes user_nodes : list Node) (path : string)
    (render_kwargs : gmap string bool)
| call_graph_has_cycles (nodes user_nodes : list Node)
| call_graph_execute (nodes : list Node) (memo : PyDict)
    (overrides inputs : option PyDict)
| call_build_result (outputs : list (string * Value)).

(** ** The effect monad: an event trace and exceptions *)
Definition M (A : Type) : Type := list Event → list Event * (PyExc + A).

Definition ret {A} (a : A) : M A := λ tr, (tr, inr a).
Definition raise {A} (e : PyExc) : M A := λ tr, (tr, inl e).
Definition bind {A B} (m : M A) (k : A → M B) : M B :=
  λ tr, match m tr with
        | (tr', inr a) => k a tr'
        | (tr', inl e) => (tr', inl e)
        end.
Definition emit (ev : Event) : M unit := λ tr, (tr ++ [ev], inr tt).
Definition lift {A} (r : PyExc + A) : M A := λ tr, (tr, r).

(** [try: m except <cls> as e: h e], where [catches] is the [isinstance]
    test of the [except] clause. *)
Definition try_except {A} (m : M A) (catches : PyExc → bool) (h : PyExc → M A) : M A :=
  λ tr, match m tr with
        | (tr', inl e) => if catches e then h e tr' else (tr', inl e)
        | r => r
        end.

#[global] Instance M_ret : MRet M := @ret.
#[global] Instance M_bind : MBind M := λ A B k m, bind m k.

(** ** [Driver] *)

Record Driver : Type := {
  graph : FunctionGraph;
  adapter : HamiltonGraphAdapter
}.

(** [Driver.__init__] *)
Definition __init__ (config : PyDict) (modules : list PyModule)
    (adapter : option HamiltonGraphAdapter) : M Driver :=
  let adapter :=
    match adapter with
    | None => SimplePythonDataFrameGraphAdapter
    | Some a => a
    end in
  g ← try_except
        (emit (call_FunctionGraph modules config);;
         lift (FunctionGraph_init modules config adapter))
        isinstance_Exception
        (λ e, emit (logger_error DISCORD_ERROR_MESSAGE);; raise e);
  ret {| graph := g; adapter := adapter |}.

(** The loop of [Driver._node_is_required_by_anything]; [nm] is
    [node_.name].  A dependent without an entry for [nm] in its
    [input_types] makes the subscript raise [KeyError]. *)
Fixpoint required_loop (nm : string) (downstream : list Node) : PyExc + bool :=
  match downstream with
  | [] => inr false
  | downstream_node :: rest =>
      match input_types downstream_node !! nm with
      | None => inl (Raise KeyError (repr_str nm))
      | Some (_, dep_type) =>
          if DependencyType_eqb dep_type REQUIRED then inr true
          else required_loop nm rest
      end
  end.

Definition _node_is_required_by_anything (node_ : Node) : PyExc + bool :=
  required_loop (name node_) (depended_on_by node_).

(** The two messages [validate_inputs] appends to [errors]. *)
Definition missing_msg (user_node : Node) : string :=
  "Error: Required input " ++ name user_node ++ " not provided " ++
  "for nodes: " ++ str_list (map name (depended_on_by user_node)) ++ ".".

Definition mismatch_msg (user_node : Node) (value : Value) : string :=
  "Error: Type requirement mismatch. Expected " ++ name user_node ++ ":" ++
  str_type (type user_node) ++ " got " ++ str_value value ++ " instead.".

(** One iteration of the [for user_node in user_nodes] loop of
    [validate_inputs]; returns the [errors] list after the iteration. *)
Definition validate_node (self : Driver) (all_inputs : PyDict)
    (user_node : Node) (errors : list string) : M (list string) :=
  match all_inputs !! name user_node with
  | None =>
      required ← lift (_node_is_required_by_anything user_node);
      if (required : bool) then ret (errors ++ [missing_msg user_node])
      else ret errors
  | Some PyNone => ret errors
  | Some value =>
      emit (call_check_input_type (type user_node) value);;
      if negb (check_input_type (adapter self) (type user_node) value)
      then ret (errors ++ [mismatch_msg user_node value])
      else ret errors
  end.

Fixpoint validate_loop (self : Driver) (all_inputs : PyDict)
    (user_nodes : list Node) (errors : list string) : M (list string) :=
  match user_nodes with
  | [] => ret errors
  | user_node :: rest =>
      errors ← validate_node self all_inputs user_node errors;
      validate_loop self all_inputs rest errors
  end.

(** The text of the combined [ValueError]. *)
Definition error_str (errors : list string) : string :=
  pretty (length errors) ++ " errors encountered:" ++ nl ++ "  " ++
  join (nl ++ "  ") errors.

(** [Driver.validate_inputs] *)
Definition validate_inputs (self : Driver) (user_nodes : list Node)
    (inputs : option PyDict) : M unit :=
  let inputs := match inputs with None => ∅ | Some i => i end in
  all_inputs ← lift (combine_config_and_inputs (config (graph self)) inputs);
  errors ← validate_loop self all_inputs user_nodes [];
  match errors with
  | [] => ret tt
  | _ => let errors := sort errors in raise (Raise ValueError (error_str errors))
  end.

Definition deprecation_warning : string :=
  "display_graph=True is deprecated. It will be removed in the 2.0.0 release. " ++
  "Please use visualize_execution().".

(** [Driver.visualize_execution] *)
Definition visualize_execution (self : Driver) (final_vars : list string)
    (output_file_path : string) (render_kwargs : gmap string bool)
    (inputs : option PyDict) : M unit :=
  '(nodes, user_nodes) ←
     (emit (call_get_upstream_nodes final_vars inputs);;
      lift (get_upstream_nodes (graph self) final_vars inputs));
  validate_inputs self user_nodes inputs;;
  try_except
    (emit (call_graph_display nodes user_nodes output_file_path render_kwargs);;
     lift (graph_display (graph self) nodes user_nodes output_file_path render_kwargs))
    isinstance_ImportError
    (λ e, emit (logger_warning ("Unable to import " ++ exc_str e))).

(** [Driver.has_cycles].  It calls [get_upstream_nodes] with the outputs
    only; the runtime inputs are left to their default, [None]. *)
Definition has_cycles (self : Driver) (final_vars : list string) : M bool :=
  '(nodes, user_nodes) ←
     (emit (call_get_upstream_nodes final_vars None);;
      lift (get_upstream_nodes (graph self) final_vars None));
  emit (call_graph_has_cycles nodes user_nodes);;
  lift (graph_has_cycles (graph self) nodes user_nodes).

(** [d[k] = v] on an insertion-ordered [dict]. *)
Fixpoint pydict_set (k : string) (v : Value) (d : list (string * Value))
    : list (string * Value) :=
  match d with
  | [] => [(k, v)]
  | (k', v') :: d' =>
      if decide (k = k') then (k', v) :: d' else (k', v') :: pydict_set k v d'
  end.

(** The comprehension [{c: memoized_computation[c] for c in final_vars}];
    [acc] is the dict built so far. *)
Fixpoint outputs_comprehension (memoized_computation : PyDict)
    (final_vars : list string) (acc : list (string * Value))
    : PyExc + list (string * Value) :=
  match final_vars with
  | [] => inr acc
  | c :: rest =>
      match memoized_computation !! c with
      | None => inl (Raise KeyError (repr_str c))
      | Some v => outputs_comprehension memoized_computation rest (pydict_set c v acc)
      end
  end.

(** [Driver.raw_execute] *)
Definition raw_execute (self : Driver) (final_vars : list string)
    (overrides : option PyDict) (display_graph : bool)
    (inputs : option PyDict) : M (list (string * Value)) :=
  '(nodes, user_nodes) ←
     (emit (call_get_upstream_nodes final_vars inputs);;
      lift (get_upstream_nodes (graph self) final_vars inputs));
  validate_inputs self user_nodes inputs;;
  (if display_graph then
     emit (logger_warning deprecation_warning);;
     visualize_execution self final_vars "test-output/execute.gv"
       {[ "view" := true ]} None;;
     cyclic ← has_cycles self final_vars;
     if (cyclic : bool)
     then raise (Raise ValueError "Error: cycles detected in you graph.")
     else ret tt
   else ret tt);;
  let memoized_computation : PyDict := ∅ in
  memoized_computation ←
    (emit (call_graph_execute nodes memoized_computation overrides inputs);;
     lift (graph_execute (graph self) nodes memoized_computation overrides inputs));
  outputs ← lift (outputs_comprehension memoized_computation final_vars []);
  ret outputs.

(** [Driver.execute] *)
Definition execute (self : Driver) (final_vars : list string)
    (overrides : option PyDict) (display_graph : bool)
    (inputs : option PyDict) : M Res :=
  (if display_graph then emit (logger_warning deprecation_warning) else ret tt);;
  try_except
    (outputs ← raw_execute self final_vars overrides display_graph inputs;
     emit (call_build_result outputs);;
     lift (build_result (adapter self) outputs))
    isinstance_Exception
    (λ e, emit (logger_error DISCORD_ERROR_MESSAGE);; raise e).

(** ** Vocabulary of the properties *)

(** Dependent [d] declares a parameter named [nm]; declares it REQUIRED. *)
Definition declares (nm : string) (d : Node) : Prop :=
  is_Some (input_types d !! nm).

Definition requires (nm : string) (d : Node) : Prop :=
  ∃ t, input_types d !! nm = Some (t, REQUIRED).

Definition optional (nm : string) (d : Node) : Prop :=
  ∃ t, input_types d !! nm = Some (t, OPTIONAL).

Definition requires_b (nm : string) (d : Node) : bool :=
  match input_types d !! nm with
  | Some (_, REQUIRED) => true
  | _ => false
  end.

(** The linking invariant of the graph: every node in [depended_on_by] has
    a parameter named after the node it depends on. *)
Definition well_linked (v : Node) : Prop :=
  Forall (declares (name v)) (depended_on_by v).

(** The violation a user node stands for, if any, given the combined
    config and inputs: a missing input that some dependent requires, or a
    supplied value other than [None] the adapter rejects. *)
Definition violation (self : Driver) (all_inputs : PyDict) (v : Node) : option string :=
  match all_inputs !! name v with
  | None =>
      if existsb (requires_b (name v)) (depended_on_by v)
      then Some (missing_msg v) else None
  | Some PyNone => None
  | Some value =>
      if check_input_type (adapter self) (type v) value then None
      else Some (mismatch_msg v value)
  end.

(** The same as a relation between a user node and its message. *)
Inductive Violation (self : Driver) (all_inputs : PyDict) (v : Node) : string → Prop :=
| missing_required :
    all_inputs !! name v = None →
    Exists (requires (name v)) (depended_on_by v) →
    Violation self all_inputs v (missing_msg v)
| type_mismatch (o : Obj) :
    all_inputs !! name v = Some (PyObj o) →
    check_input_type (adapter self) (type v) (PyObj o) = false →
    Violation self all_inputs v (mismatch_msg v (PyObj o)).

(** The adapter calls a user node stands for. *)
Definition check_calls (all_inputs : PyDict) (v : Node) : list Event :=
  match all_inputs !! name v with
  | Some (PyObj o) => [call_check_input_type (type v) (PyObj o)]
  | _ => []
  end.

(** [x] occurs in the text [s]. *)
Definition occurs (x s : string) : Prop :=
  ∃ pre post : string, s = (pre ++ x ++ post)%string.

(** The events a run adds to an empty trace, and how the run ends.  The
    driver's methods are [uniform] (below): started from any trace they
    append exactly these events and end in this outcome. *)
Definition events {A} (m : M A) : list Event := (m []).1.
Definition outcome {A} (m : M A) : PyExc + A := (m []).2.

(** A run only appends to the trace it starts from, and neither the
    appended events nor the outcome depend on that trace. *)
Definition uniform {A} (m : M A) : Prop :=
  ∀ tr, m tr = (tr ++ events m, outcome m).

(** The [if display_graph:] block of [raw_execute], on its own. *)
Definition deprecated_flow (self : Driver) (final_vars : list string)
    (display_graph : bool) : M unit :=
  if display_graph then
    emit (logger_warning deprecation_warning);;
    visualize_execution self final_vars "test-output/execute.gv"
      {[ "view" := true ]} None;;
    cyclic ← has_cycles self final_vars;
    if (cyclic : bool)
    then raise (Raise ValueError "Error: cycles detected in you graph.")
    else ret tt
  else ret tt.

(** The body of the [try] in [execute]. *)
Definition execute_body (self : Driver) (final_vars : list string)
    (overrides : option PyDict) (display_graph : bool)
    (inputs : option PyDict) : M Res :=
  outputs ← raw_execute self final_vars overrides display_graph inputs;
  emit (call_build_result outputs);;
  lift (build_result (adapter self) outputs).

Definition is_call_graph_execute (ev : Event) : bool :=
  match ev with call_graph_execute _ _ _ _ => true | _ => false end.

Definition is_call_graph_has_cycles (ev : Event) : bool :=
  match ev with call_graph_has_cycles _ _ => true | _ => false end.

Definition is_call_build_result (ev : Event) : bool :=
  match ev with call_build_result _ => true | _ => false end.

Definition is_call_check_input_type (ev : Event) : bool :=
  match ev with call_check_input_type _ _ => true | _ => false end.

Definition is_logger_error (ev : Event) : bool :=
  match ev with logger_error _ => true | _ => false end.

(** The events of validation and of the deprecated display flow. *)
Definition is_flow_event (ev : Event) : bool :=
  match ev with
  | logger_warning _ | call_get_upstream_nodes _ _ | call_check_input_type _ _
  | call_graph_display _ _ _ _ | call_graph_has_cycles _ _ => true
  | _ => false
  end.

(** The driver with another cycle check in its graph. *)
Definition with_has_cycles (self : Driver)
    (has_cycles' : list Node → list Node → PyExc + bool) : Driver :=
  {| graph :=
       {| config := config (graph self);
          get_upstream_nodes := get_upstream_nodes (graph self);
          graph_execute := graph_execute (graph self);
          graph_has_cycles := has_cycles';
          graph_display := graph_display (graph self) |};
     adapter := adapter self |}.

(** An event that neither runs the graph nor builds a result. *)
Definition quiet (ev : Event) : Prop :=
  is_call_graph_execute ev = false ∧ is_call_build_result ev = false.

End Driver.

(** ** Introspection and rendering of the whole graph *)

Section Views.

Context `{rt : PyRuntime}.

(** The dataclass [Variable] of [driver.py], with its fields [name] and
    [type]. *)
Record PyVariable : Type := mkVariable {
  variable_name : string;
  variable_type : Ty
}.

(** The two further methods of [graph.FunctionGraph] the driver calls:
    [get_nodes] and [display_all]. *)
Record FunctionGraphViews : Type := {
  get_nodes : list Node;
  graph_display_all : string → option (gmap string bool) → PyExc + unit
}.

(** [Driver.list_available_variables]; [graph_views] is the part of
    [self.graph] the method uses. *)
Definition list_available_variables (graph_views : FunctionGraphViews)
    : list PyVariable :=
  map (λ node, mkVariable (name node) (type node)) (get_nodes graph_views).

(** [Driver.display_all_functions]; [graph_views] is the part of
    [self.graph] the method uses.  The trace of a run holds what the method
    logs. *)
Definition display_all_functions (graph_views : FunctionGraphViews)
    (output_file_path : string) (render_kwargs : option (gmap string bool))
    : M unit :=
  try_except
    (lift (graph_display_all graph_views output_file_path render_kwargs))
    isinstance_ImportError
    (λ e, emit (logger_warning ("Unable to import " ++ exc_str e))).

End Views.

Section MoreVocabulary.

Context `{rt : PyRuntime} `{gm : !GraphModule}.

(** The keys of a list in the order of their first occurrence. *)
Definition first_occurrences (l : list string) : list string :=
  reverse (remove_dups (reverse l)).

(** The keys of an insertion-ordered [dict] after [d[c] = ...]. *)
Definition add_key (keys : list string) (c : string) : list string :=
  if decide (c ∈ keys) then keys else keys ++ [c].

(** The two kinds of violation, apart. *)
Definition missing_violation (all_inputs : PyDict) (v : Node) : option string :=
  match all_inputs !! name v with
  | None =>
      if existsb (requires_b (name v)) (depended_on_by v)
      then Some (missing_msg v) else None
  | Some _ => None
  end.

Definition mismatch_violation (self : Driver) (all_inputs : PyDict) (v : Node)
    : option string :=
  match all_inputs !! name v with
  | Some (PyObj o) =>
      if check_input_type (adapter self) (type v) (PyObj o) then None
      else Some (mismatch_msg v (PyObj o))
  | _ => None
  end.

Definition is_call_graph_display (ev : Event) : bool :=
  match ev with call_graph_display _ _ _ _ => true | _ => false end.

(** An event of a method that only looks at the graph: no execution, no
    result, no error record, no cycle check. *)
Definition is_view_event (ev : Event) : bool :=
  match ev with
  | logger_warning _ | call_get_upstream_nodes _ _ | call_check_input_type _ _
  | call_graph_display _ _ _ _ => true
  | _ => false
  end.

End MoreVocabulary.

(** ** A concrete runtime, adapter and graphs *)

Module Example.

Inductive ex_type : Type := t_int | t_str.
Inductive ex_obj : Type := o_int (z : Z) | o_str (s : string).

#[export] Instance ex_runtime : PyRuntime := {|
  Ty := ex_type;
  Obj := ex_obj;
  Res := list (string * PyValue ex_obj);
  PyModule := string;
  str_type := λ t, match t with t_int => "<class 'int'>" | t_str => "<class 'str'>" end;
  str_obj := λ o, match o with o_int z => pretty z | o_str s => s end;
  repr_str := λ s, ("'" ++ s ++ "'")%string
|}.

(** An adapter that checks with [isinstance] and returns the outputs as
    they are. *)
Definition ex_adapter : HamiltonGraphAdapter := {|
  check_input_type := λ t v,
    match t, v with
    | t_int, PyObj (o_int _) => true
    | t_str, PyObj (o_str _) => true
    | _, _ => false
    end;
  build_result := λ outputs, inr outputs
|}.

(** [total] requires the input [price] and takes [tax] with a default;
    [label] takes [tax] with a default as well. *)
Definition n_total : Node :=
  mkNode "total" t_int
    {[ "price" := (t_int, REQUIRED); "tax" := (t_int, OPTIONAL) ]} [].
Definition n_label : Node :=
  mkNode "label" t_str {[ "tax" := (t_int, OPTIONAL) ]} [].
Definition n_price : Node := mkNode "price" t_int ∅ [n_total].
Definition n_tax : Node := mkNode "tax" t_int ∅ [n_total; n_label].

(** [rate] is required by [gross] and optional for [note]. *)
Definition n_gross : Node :=
  mkNode "gross" t_int {[ "rate" := (t_int, REQUIRED) ]} [].
Definition n_note : Node :=
  mkNode "note" t_str {[ "rate" := (t_int, OPTIONAL) ]} [].
Definition n_rate : Node := mkNode "rate" t_int ∅ [n_gross; n_note].

Definition ex_nodes : list Node := [n_price; n_tax; n_total; n_label].
Definition ex_user_nodes : list Node := [n_price; n_tax].

(** A graph that answers every request with the same closure, [total] and
    [label] over the user nodes [price] and [tax], and the same computed
    values; [display_exc] is what rendering raises, if anything. *)
Definition ex_graph (cfg : PyDict) (display_exc : option PyExc) : FunctionGraph := {|
  config := cfg;
  get_upstream_nodes := λ _ _, inr (ex_nodes, ex_user_nodes);
  graph_execute := λ _ memo _ _,
    inr (<["total" := PyObj (o_int 12)]> (<["label" := PyObj (o_str "x")]> memo));
  graph_has_cycles := λ nodes _, inr (spec_has_cycles nodes);
  graph_display := λ _ _ _ _,
    match display_exc with Some e => inl e | None => inr tt end
|}.

(** [p] and [q] require each other.  ([depended_on_by] is cut off after
    one level, which is as far as the driver looks.) *)
Definition n_p : Node :=
  mkNode "p" t_int {[ "q" := (t_int, REQUIRED) ]}
    [mkNode "q" t_int {[ "p" := (t_int, REQUIRED) ]} []].
Definition n_q : Node :=
  mkNode "q" t_int {[ "p" := (t_int, REQUIRED) ]}
    [mkNode "p" t_int {[ "q" := (t_int, REQUIRED) ]} []].

(** A graph whose closure of any request is [p] and [q], without user
    nodes; executing it recurses until Python gives up. *)
Definition cyclic_graph : FunctionGraph := {|
  config := ∅;
  get_upstream_nodes := λ _ _, inr ([n_p; n_q], []);
  graph_execute := λ _ _ _ _,
    inl (Raise RecursionError "maximum recursion depth exceeded");
  graph_has_cycles := λ nodes _, inr (spec_has_cycles nodes);
  graph_display := λ _ _ _ _, inr tt
|}.

#[export] Instance ex_module : GraphModule := {|
  FunctionGraph_init := λ modules cfg _,
    match modules with
    | [] => inl (Raise ValueError "no modules")
    | _ => inr (ex_graph cfg None)
    end;
  SimplePythonDataFrameGraphAdapter := ex_adapter;
  clash_error := λ _ _, Raise ValueError "config and inputs overlap"
|}.

Definition ex_driver (cfg : PyDict) (display_exc : option PyExc) : Driver :=
  {| graph := ex_graph cfg display_exc; adapter := ex_adapter |}.

(** No config, rendering works. *)
Definition drv : Driver := ex_driver ∅ None.

(** [price] fixed by the config. *)
Definition drv_priced : Driver :=
  ex_driver {[ "price" := PyObj (o_int 3) ]} None.

(** [price] fixed by the config; rendering fails for want of graphviz. *)
Definition drv_no_graphviz : Driver :=
  ex_driver {[ "price" := PyObj (o_int 3) ]}
    (Some (Raise ImportError "No module named 'graphviz'")).

(** The driver of the cyclic graph. *)
Definition drv_cyclic : Driver :=
  {| graph := cyclic_graph; adapter := ex_adapter |}.

(** One module to build the example graph from. *)
Definition ex_modules : list (PyModule (PyRuntime:=ex_runtime)) := ["m"].

(** A driver whose graph ends its execution with [sys.exit(1)]. *)
Definition drv_exit : Driver :=
  {| graph :=
       {| config := {[ "price" := PyObj (o_int 3) ]};
          get_upstream_nodes := λ _ _, inr (ex_nodes, ex_user_nodes);
          graph_execute := λ _ _ _ _, inl (Raise SystemExit "1");
          graph_has_cycles := λ nodes _, inr (spec_has_cycles nodes);
          graph_display := λ _ _ _ _, inr tt |};
     adapter := ex_adapter |}.

(** The remaining methods of the example graph; [display_exc] is what
    rendering raises, if anything. *)
Definition ex_views (display_exc : option PyExc) : FunctionGraphViews := {|
  get_nodes := ex_nodes;
  graph_display_all := λ _ _,
    match display_exc with Some e => inl e | None => inr tt end
|}.

End Example.

(** * Properties *)

Section Properties.

Context `{rt : PyRuntime} `{gm : !GraphModule}.

Implicit Types (self : Driver) (v d : Node) (tr : list Event).
Implicit Types (e : PyExc) (errors : list string).

(** Unfolds the monad operations of a goal down to pairs. *)
Ltac munfold :=
  unfold mbind, M_bind, mret, M_ret, bind, ret, raise, emit, lift, try_except.

(** ** Texts *)

Lemma append_assoc (a b c : string) : ((a ++ b) ++ c = a ++ (b ++ c))%string.
Proof.
  induction a as [|ch a IH]; [done|].
  change (String ch ((a ++ b) ++ c) = String ch (a ++ b ++ c))%string.
  by rewrite IH.
Qed.

Lemma append_nil_r (a : string) : (a ++ "")%string = a.
Proof.
  induction a as [|ch a IH]; [done|].
  change (String ch (a ++ "") = String ch a)%string. by rewrite IH.
Qed.

Lemma occurs_refl (x : string) : occurs x x.
Proof.
  exists ""%string, ""%string. by rewrite append_nil_r.
Qed.

Lemma occurs_app_l (x a b : string) : occurs x a → occurs x (a ++ b)%string.
Proof.
  intros (pre & post & ->). exists pre, (post ++ b)%string.
  by rewrite !append_assoc.
Qed.

Lemma occurs_app_r (x a b : string) : occurs x b → occurs x (a ++ b)%string.
Proof.
  intros (pre & post & ->). exists (a ++ pre)%string, post.
  by rewrite !append_assoc.
Qed.

Lemma occurs_trans (x y z : string) : occurs x y → occurs y z → occurs x z.
Proof.
  intros Hxy (pre & post & ->).
  by apply occurs_app_r, occurs_app_l.
Qed.

Lemma occurs_join (sep x : string) (l : list string) :
  x ∈ l → occurs x (join sep l).
Proof.
  unfold join. induction l as [|y [|z l] IH]; intros Hin.
  - by apply elem_of_nil in Hin.
  - apply list_elem_of_singleton in Hin as ->. apply occurs_refl.
  - apply elem_of_cons in Hin as [-> | Hin].
    + change (occurs y (y ++ sep ++ String.concat sep (z :: l))%string).
      apply occurs_app_l, occurs_refl.
    + change (occurs x (y ++ sep ++ String.concat sep (z :: l))%string).
      by apply occurs_app_r, occurs_app_r, IH.
Qed.

Lemma occurs_error_str (x : string) errors :
  x ∈ errors → occurs x (error_str errors).
Proof.
  intros Hin. unfold error_str.
  by do 4 apply occurs_app_r; apply occurs_join.
Qed.

Lemma sort_Permutation (l : list string) : sort l ≡ₚ l.
Proof. apply merge_sort_Permutation. Qed.

Lemma sort_Sorted (l : list string) : Sorted String.le (sort l).
Proof. apply (Sorted_merge_sort String.le). Qed.

Lemma sort_elem_of (x : string) (l : list string) : x ∈ sort l ↔ x ∈ l.
Proof. by rewrite sort_Permutation. Qed.

(** ** [_node_is_required_by_anything] *)

Lemma requires_b_spec (nm : string) d : requires_b nm d = true ↔ requires nm d.
Proof.
  unfold requires_b, requires.
  destruct (input_types d !! nm) as [[t [|]]|]; split;
    try done; try (intros [t' [=]]); eauto.
Qed.

Lemma existsb_requires (nm : string) (ds : list Node) :
  existsb (requires_b nm) ds = true ↔ Exists (requires nm) ds.
Proof.
  rewrite existsb_exists, Exists_exists. unfold elem_of.
  split; intros (d & Hin & Hd); exists d; split; try done;
    try (by apply list_elem_of_In); by apply requires_b_spec.
Qed.

Lemma required_loop_spec (nm : string) (ds : list Node) :
  Forall (declares nm) ds →
  required_loop nm ds = inr (existsb (requires_b nm) ds).
Proof.
  induction 1 as [|d ds [[t dep] Hd] _ IH]; simpl; [done|].
  unfold requires_b at 1. rewrite Hd.
  destruct dep; simpl; [done | apply IH].
Qed.

(** Whenever the test returns, linked dependents or not, its answer is
    right. *)
Lemma required_loop_returns (nm : string) (ds : list Node) (b : bool) :
  required_loop nm ds = inr b → (b = true ↔ Exists (requires nm) ds).
Proof.
  induction ds as [|d ds IH]; simpl.
  - intros [= <-]. split; [done|]. by intros ?%Exists_nil.
  - destruct (input_types d !! nm) as [[t dep]|] eqn:Hd; [|done].
    destruct dep; simpl.
    + intros [= <-]. split; [|done]. intros _. apply Exists_cons_hd. by exists t.
    + intros Hb. rewrite (IH Hb), Exists_cons. split; [by right|].
      intros [[t' Ht']|?]; [congruence | done].
Qed.

(** A dependent without the parameter makes the test raise, unless an
    earlier dependent already answered it. *)
Lemma required_loop_KeyError (nm : string) (ds1 ds2 : list Node) d :
  Forall (optional nm) ds1 → input_types d !! nm = None →
  required_loop nm (ds1 ++ d :: ds2) = inl (Raise KeyError (repr_str nm)).
Proof.
  intros Hopt Hd. induction Hopt as [|d' ds1 [t Hd'] _ IH]; simpl.
  - by rewrite Hd.
  - by rewrite Hd'.
Qed.

(** ** Runs of the effect monad *)

Lemma uniform_ret {A} (a : A) : uniform (mret a).
Proof. intros tr. munfold. unfold events, outcome. simpl. by rewrite app_nil_r. Qed.

Lemma uniform_raise {A} e : uniform (raise (A:=A) e).
Proof. intros tr. unfold raise, events, outcome. simpl. by rewrite app_nil_r. Qed.

Lemma uniform_lift {A} (r : PyExc + A) : uniform (lift r).
Proof. intros tr. unfold lift, events, outcome. simpl. by rewrite app_nil_r. Qed.

Lemma uniform_emit ev : uniform (emit ev).
Proof. by intros tr. Qed.

Lemma events_bind {A B} (m : M A) (k : A → M B) :
  uniform m → (∀ a, uniform (k a)) →
  events (m ≫= k) =
    events m ++ match outcome m with inr a => events (k a) | inl _ => [] end.
Proof.
  intros Hm Hk. unfold events at 1. munfold.
  rewrite (Hm []). simpl. destruct (outcome m) as [e|a]; simpl.
  - by rewrite app_nil_r.
  - by rewrite (Hk a).
Qed.

Lemma outcome_bind {A B} (m : M A) (k : A → M B) :
  uniform m → (∀ a, uniform (k a)) →
  outcome (m ≫= k) =
    match outcome m with inr a => outcome (k a) | inl e => inl e end.
Proof.
  intros Hm Hk. unfold outcome at 1. munfold.
  rewrite (Hm []). simpl. destruct (outcome m) as [e|a]; simpl; [done|].
  by rewrite (Hk a).
Qed.

Lemma uniform_bind {A B} (m : M A) (k : A → M B) :
  uniform m → (∀ a, uniform (k a)) → uniform (m ≫= k).
Proof.
  intros Hm Hk tr. rewrite events_bind, outcome_bind by done.
  munfold. rewrite (Hm tr). destruct (outcome m) as [e|a].
  - by rewrite app_nil_r.
  - by rewrite (Hk a), (assoc_L (++)).
Qed.

Lemma events_try_except {A} (m : M A) (catches : PyExc → bool) (h : PyExc → M A) :
  uniform m → (∀ e, uniform (h e)) →
  events (try_except m catches h) =
    events m ++ match outcome m with
                | inl e => if catches e then events (h e) else []
                | inr _ => []
                end.
Proof.
  intros Hm Hh. unfold events at 1, try_except.
  rewrite (Hm []). simpl. destruct (outcome m) as [e|a]; simpl.
  - destruct (catches e); simpl; [by rewrite (Hh e) | by rewrite app_nil_r].
  - by rewrite app_nil_r.
Qed.

Lemma outcome_try_except {A} (m : M A) (catches : PyExc → bool) (h : PyExc → M A) :
  uniform m → (∀ e, uniform (h e)) →
  outcome (try_except m catches h) =
    match outcome m with
    | inl e => if catches e then outcome (h e) else inl e
    | inr a => inr a
    end.
Proof.
  intros Hm Hh. unfold outcome at 1, try_except.
  rewrite (Hm []). simpl. destruct (outcome m) as [e|a]; simpl; [|done].
  destruct (catches e); simpl; [by rewrite (Hh e) | done].
Qed.

Lemma uniform_try_except {A} (m : M A) (catches : PyExc → bool) (h : PyExc → M A) :
  uniform m → (∀ e, uniform (h e)) → uniform (try_except m catches h).
Proof.
  intros Hm Hh tr. rewrite events_try_except, outcome_try_except by done.
  unfold try_except. rewrite (Hm tr). destruct (outcome m) as [e|a].
  - destruct (catches e); [by rewrite (Hh e), (assoc_L (++)) | by rewrite app_nil_r].
  - by rewrite app_nil_r.
Qed.

Lemma events_emit ev : events (emit ev) = [ev].
Proof. done. Qed.
Lemma outcome_emit ev : outcome (emit ev) = inr tt.
Proof. done. Qed.
Lemma events_lift {A} (r : PyExc + A) : events (lift r) = [].
Proof. done. Qed.
Lemma outcome_lift {A} (r : PyExc + A) : outcome (lift r) = r.
Proof. done. Qed.
Lemma events_ret {A} (a : A) : events (mret a) = [].
Proof. done. Qed.
Lemma outcome_ret {A} (a : A) : outcome (mret a) = inr a.
Proof. done. Qed.
Lemma events_raise {A} e : events (raise (A:=A) e) = [].
Proof. done. Qed.
Lemma outcome_raise {A} e : outcome (raise (A:=A) e) = inl e.
Proof. done. Qed.

(** Proves [uniform m] for a computation built from the operations above. *)
Ltac uniform_tac :=
  repeat match goal with
    | |- uniform (ret _) => apply uniform_ret
    | |- uniform (raise _) => apply uniform_raise
    | |- uniform (emit _) => apply uniform_emit
    | |- uniform (lift _) => apply uniform_lift
    | |- uniform (try_except _ _ _) => apply uniform_try_except
    | |- uniform (_ ≫= _) => apply uniform_bind
    | |- uniform (if ?b then _ else _) => destruct b
    | |- uniform (match ?x with _ => _ end) => destruct x
    | |- ∀ _, _ => intro
    | |- uniform _ => assumption
    end.

(** ** The validation loop *)

Lemma violation_spec self (all_inputs : PyDict) v (m : string) :
  violation self all_inputs v = Some m ↔ Violation self all_inputs v m.
Proof.
  unfold violation. split.
  - destruct (all_inputs !! name v) as [[|o]|] eqn:Hv; [done|..].
    + destruct (check_input_type _ _ _) eqn:Hc; [done|]. intros [= <-].
      by apply type_mismatch.
    + destruct (existsb _ _) eqn:Hreq; [|done]. intros [= <-].
      apply missing_required; [done|]. by apply existsb_requires.
  - intros [Hv Hreq|o Hv Hc]; rewrite Hv.
    + apply existsb_requires in Hreq. by rewrite Hreq.
    + by rewrite Hc.
Qed.

Lemma omap_filter_Forall2 {A B} (f : A → option B) (l : list A) :
  Forall2 (λ x y, f x = Some y) (filter (λ x, is_Some (f x)) l) (omap f l).
Proof.
  induction l as [|x l IH]; [constructor|].
  rewrite filter_cons. simpl. destruct (f x) as [y|] eqn:Hfx.
  - rewrite decide_True by eauto. by constructor.
  - rewrite decide_False by (by intros [? ?]). exact IH.
Qed.

Lemma validate_node_spec self (all_inputs : PyDict) v errors tr :
  (all_inputs !! name v = None → well_linked v) →
  validate_node self all_inputs v errors tr =
    (tr ++ check_calls all_inputs v,
     inr (errors ++ option_list (violation self all_inputs v))).
Proof.
  intros Hwl. unfold validate_node, violation, check_calls.
  destruct (all_inputs !! name v) as [[|o]|] eqn:Hv.
  - munfold. by rewrite !app_nil_r.
  - munfold. destruct (check_input_type _ _ _); simpl; by rewrite ?app_nil_r.
  - unfold _node_is_required_by_anything.
    rewrite (required_loop_spec _ _ (Hwl eq_refl)). munfold.
    destruct (existsb _ _); simpl; by rewrite ?app_nil_r.
Qed.

Lemma validate_loop_spec self (all_inputs : PyDict) (user_nodes : list Node) errors tr :
  Forall (λ v, all_inputs !! name v = None → well_linked v) user_nodes →
  validate_loop self all_inputs user_nodes errors tr =
    (tr ++ (user_nodes ≫= check_calls all_inputs),
     inr (errors ++ omap (violation self all_inputs) user_nodes)).
Proof.
  intros Hwl. revert errors tr.
  induction Hwl as [|v user_nodes Hv _ IH]; intros errors tr; simpl.
  - munfold. by rewrite !app_nil_r.
  - unfold mbind at 1, M_bind at 1, bind at 1.
    rewrite (validate_node_spec _ _ _ _ _ Hv), IH.
    rewrite <- !(assoc_L (++)). do 2 f_equal.
    by destruct (violation self all_inputs v).
Qed.

Lemma validate_inputs_unfold self (user_nodes : list Node) (inputs : option PyDict) tr :
  validate_inputs self user_nodes inputs tr =
    match combine_config_and_inputs (config (graph self)) (default ∅ inputs) with
    | inl e => (tr, inl e)
    | inr all_inputs =>
        match validate_loop self all_inputs user_nodes [] tr with
        | (tr', inl e) => (tr', inl e)
        | (tr', inr []) => (tr', inr tt)
        | (tr', inr errors) => (tr', inl (Raise ValueError (error_str (sort errors))))
        end
    end.
Proof.
  unfold validate_inputs. munfold.
  replace (match inputs with Some i => i | None => ∅ end) with (default ∅ inputs)
    by by destruct inputs.
  destruct (combine_config_and_inputs _ _) as [e|all_inputs]; [done|].
  by destruct (validate_loop _ _ _ _ _) as [tr' [e|[|m errors]]].
Qed.

(** What [validate_inputs] does once config and inputs combine. *)
Lemma validate_inputs_spec self (user_nodes : list Node) (inputs : option PyDict)
    (all_inputs : PyDict) tr :
  combine_config_and_inputs (config (graph self)) (default ∅ inputs) = inr all_inputs →
  Forall (λ v, all_inputs !! name v = None → well_linked v) user_nodes →
  validate_inputs self user_nodes inputs tr =
    (tr ++ (user_nodes ≫= check_calls all_inputs),
     match omap (violation self all_inputs) user_nodes with
     | [] => inr tt
     | errors => inl (Raise ValueError (error_str (sort errors)))
     end).
Proof.
  intros Hc Hwl. unfold validate_inputs.
  unfold mbind at 1, M_bind at 1, bind at 1, lift at 1.
  replace (match inputs with Some i => i | None => ∅ end) with (default ∅ inputs)
    by by destruct inputs.
  rewrite Hc.
  unfold mbind, M_bind, bind.
  rewrite (validate_loop_spec _ _ _ _ _ Hwl). simpl.
  by destruct (omap _ _).
Qed.

(** [validate_inputs] adds only adapter calls to the trace, whatever
    happens. *)
Lemma validate_node_trace self (all_inputs : PyDict) v errors tr :
  ∃ evs, (validate_node self all_inputs v errors tr).1 = tr ++ evs ∧
    Forall (λ ev, is_call_check_input_type ev = true) evs.
Proof.
  unfold validate_node.
  destruct (all_inputs !! name v) as [[|o]|].
  - exists []. by rewrite app_nil_r.
  - exists [call_check_input_type (type v) (PyObj o)]. munfold.
    split; [|by repeat constructor].
    by destruct (negb _).
  - exists []. munfold. rewrite app_nil_r.
    by destruct (_node_is_required_by_anything v) as [?|[|]].
Qed.

Lemma validate_loop_trace self (all_inputs : PyDict) (user_nodes : list Node) errors tr :
  ∃ evs, (validate_loop self all_inputs user_nodes errors tr).1 = tr ++ evs ∧
    Forall (λ ev, is_call_check_input_type ev = true) evs.
Proof.
  revert errors tr. induction user_nodes as [|v user_nodes IH]; intros errors tr; simpl.
  - exists []. by rewrite app_nil_r.
  - unfold mbind, M_bind, bind.
    destruct (validate_node_trace self all_inputs v errors tr) as (evs1 & H1 & HF1).
    destruct (validate_node _ _ _ _ _) as [tr1 [e|errors1]]; simpl in H1; subst tr1.
    + by exists evs1.
    + destruct (IH errors1 (tr ++ evs1)) as (evs2 & H2 & HF2).
      exists (evs1 ++ evs2). rewrite H2, (assoc_L (++)). split; [done|].
      by apply Forall_app.
Qed.

Lemma validate_inputs_trace self (user_nodes : list Node) (inputs : option PyDict) tr :
  ∃ evs, (validate_inputs self user_nodes inputs tr).1 = tr ++ evs ∧
    Forall (λ ev, is_call_check_input_type ev = true) evs.
Proof.
  unfold validate_inputs. unfold mbind at 1, M_bind at 1, bind at 1, lift at 1.
  destruct (combine_config_and_inputs _ _) as [e|all_inputs].
  { exists []. by rewrite app_nil_r. }
  unfold mbind, M_bind, bind.
  destruct (validate_loop_trace self all_inputs user_nodes [] tr) as (evs & H & HF).
  exists evs. split; [|done].
  by destruct (validate_loop _ _ _ _ _) as [tr1 [e|[|m errors]]].
Qed.

Lemma validate_node_uniform self (all_inputs : PyDict) v errors :
  uniform (validate_node self all_inputs v errors).
Proof. unfold validate_node. uniform_tac. Qed.

Lemma validate_loop_uniform self (all_inputs : PyDict) (user_nodes : list Node) errors :
  uniform (validate_loop self all_inputs user_nodes errors).
Proof.
  revert errors. induction user_nodes as [|v user_nodes IH]; intros errors; simpl.
  - apply uniform_ret.
  - apply uniform_bind; [apply validate_node_uniform | done].
Qed.

Lemma validate_inputs_uniform self (user_nodes : list Node) (inputs : option PyDict) :
  uniform (validate_inputs self user_nodes inputs).
Proof.
  unfold validate_inputs. apply uniform_bind; [apply uniform_lift|]. intros all_inputs.
  apply uniform_bind; [apply validate_loop_uniform|]. uniform_tac.
Qed.

(** The loop over a concatenation runs the loop over the first part, then
    over the second. *)
Lemma validate_loop_app self (all_inputs : PyDict) (l1 l2 : list Node) errors tr :
  validate_loop self all_inputs (l1 ++ l2) errors tr =
    (errors' ← validate_loop self all_inputs l1 errors;
     validate_loop self all_inputs l2 errors') tr.
Proof.
  revert errors tr. induction l1 as [|v l1 IH]; intros errors tr; simpl; [done|].
  munfold. destruct (validate_node _ _ _ _ _) as [tr1 [e|errors1]]; [done|].
  apply IH.
Qed.

(** A node whose iteration changes nothing can be left out of the
    validation. *)
Lemma validate_inputs_skip self (l1 l2 : list Node) v (inputs : option PyDict) tr :
  (∀ all_inputs errors tr',
     combine_config_and_inputs (config (graph self)) (default ∅ inputs) = inr all_inputs →
     validate_node self all_inputs v errors tr' = (tr', inr errors)) →
  validate_inputs self (l1 ++ v :: l2) inputs tr =
  validate_inputs self (l1 ++ l2) inputs tr.
Proof.
  intros Hskip. rewrite !validate_inputs_unfold.
  destruct (combine_config_and_inputs _ _) as [e|all_inputs] eqn:Hc; [done|].
  rewrite !validate_loop_app. munfold.
  destruct (validate_loop self all_inputs l1 [] tr) as [tr1 [e|errors1]]; [done|].
  simpl. munfold. by rewrite (Hskip all_inputs errors1 tr1 eq_refl).
Qed.

Lemma well_linked_weaken (all_inputs : PyDict) (user_nodes : list Node) :
  Forall well_linked user_nodes →
  Forall (λ v, all_inputs !! name v = None → well_linked v) user_nodes.
Proof. intros H. eapply Forall_impl; [exact H | auto]. Qed.

(** The outcome of a validation whose nodes are linked. *)
Lemma validate_inputs_outcome self (user_nodes : list Node) (inputs : option PyDict)
    (all_inputs : PyDict) :
  combine_config_and_inputs (config (graph self)) (default ∅ inputs) = inr all_inputs →
  Forall well_linked user_nodes →
  outcome (validate_inputs self user_nodes inputs) =
    match omap (violation self all_inputs) user_nodes with
    | [] => inr tt
    | errors => inl (Raise ValueError (error_str (sort errors)))
    end ∧
  events (validate_inputs self user_nodes inputs) = user_nodes ≫= check_calls all_inputs.
Proof.
  intros Hc Hwl. unfold outcome, events.
  by rewrite (validate_inputs_spec _ _ _ _ _ Hc (well_linked_weaken _ _ Hwl)).
Qed.

(** A violating node makes the validation raise one [ValueError] whose
    text holds the node's message. *)
Lemma validate_inputs_reports self (user_nodes : list Node) (inputs : option PyDict)
    (all_inputs : PyDict) v (m : string) :
  combine_config_and_inputs (config (graph self)) (default ∅ inputs) = inr all_inputs →
  Forall well_linked user_nodes →
  v ∈ user_nodes → violation self all_inputs v = Some m →
  ∃ msg, outcome (validate_inputs self user_nodes inputs) = inl (Raise ValueError msg) ∧
    occurs m msg.
Proof.
  intros Hc Hwl Hin Hv.
  destruct (validate_inputs_outcome _ _ _ _ Hc Hwl) as [-> _].
  assert (m ∈ omap (violation self all_inputs) user_nodes) as Hm
    by (apply list_elem_of_omap; eauto).
  destruct (omap _ _) as [|m0 errors] eqn:Herrs.
  { by apply elem_of_nil in Hm. }
  eexists. split; [done|].
  by apply occurs_error_str, sort_elem_of.
Qed.

(** ** Claims about validation *)

(** C2: for a vertex [v] whose dependents are linked to it, the
    required-by-any-downstream test returns a boolean, and it returns
    [true] if and only if some dependent declares its parameter named after
    [v] REQUIRED; in particular it returns [false] when [v] has no
    dependents and when every dependent declares that parameter
    OPTIONAL. *)
Theorem node_is_required_by_anything_iff v :
  well_linked v →
  ∃ b : bool,
    _node_is_required_by_anything v = inr b ∧
    (b = true ↔ Exists (requires (name v)) (depended_on_by v)) ∧
    (depended_on_by v = [] → b = false) ∧
    (Forall (optional (name v)) (depended_on_by v) → b = false).
Proof.
  intros Hwl. exists (existsb (requires_b (name v)) (depended_on_by v)).
  split; [by apply required_loop_spec|].
  split; [apply existsb_requires|]. split.
  - by intros ->.
  - intros Hopt. apply not_true_is_false. rewrite existsb_requires.
    rewrite Exists_exists. intros (d & Hin & t & Hreq).
    rewrite Forall_forall in Hopt. destruct (Hopt d Hin) as [t' Ht'].
    congruence.
Qed.

(** C1: when config and inputs combine and the user nodes are linked,
    [validate_inputs] visits every user node (the adapter is asked about
    every supplied value other than [None], also after a violation was
    found) and collects one message per violating node: a missing input
    that some dependent requires, or a supplied value the adapter rejects.
    If there is any, it raises a single [ValueError] whose text is the
    count followed by the sorted messages, one per violation; with no
    violation it returns normally. *)
Theorem validate_inputs_collects_all self (user_nodes : list Node)
    (inputs : option PyDict) (all_inputs : PyDict) :
  combine_config_and_inputs (config (graph self)) (default ∅ inputs) = inr all_inputs →
  Forall well_linked user_nodes →
  ∃ errors : list string,
    errors = omap (violation self all_inputs) user_nodes ∧
    Forall2 (Violation self all_inputs)
      (filter (λ v, is_Some (violation self all_inputs v)) user_nodes) errors ∧
    (∀ m, m ∈ errors ↔ ∃ v, v ∈ user_nodes ∧ Violation self all_inputs v m) ∧
    events (validate_inputs self user_nodes inputs) =
      user_nodes ≫= check_calls all_inputs ∧
    outcome (validate_inputs self user_nodes inputs) =
      (if decide (errors = []) then inr tt
       else inl (Raise ValueError (error_str (sort errors)))) ∧
    Sorted String.le (sort errors) ∧
    sort errors ≡ₚ errors ∧
    error_str (sort errors) =
      (pretty (length errors) ++ " errors encountered:" ++ nl ++ "  " ++
       join (nl ++ "  ") (sort errors))%string ∧
    (∀ m, m ∈ errors → occurs m (error_str (sort errors))).
Proof.
  intros Hc Hwl. eexists. split; [reflexivity|].
  destruct (validate_inputs_outcome _ _ _ _ Hc Hwl) as [Hout Hev].
  split.
  { eapply Forall2_impl; [apply omap_filter_Forall2|].
    intros v m. apply violation_spec. }
  split.
  { intros m. rewrite list_elem_of_omap.
    split; intros (v & Hin & Hv); exists v; split; try done; by apply violation_spec. }
  split; [done|]. split.
  { rewrite Hout. by destruct (omap _ _). }
  split; [apply sort_Sorted|]. split; [apply sort_Permutation|]. split.
  { unfold error_str. by rewrite (Permutation_length (sort_Permutation _)). }
  intros m Hm. by apply occurs_error_str, sort_elem_of.
Qed.

(** X1: the outcome of [validate_inputs] does not depend on the order in
    which the collection of user nodes is iterated: two orders of the same
    nodes give the same return or the same combined [ValueError], text
    included. *)
Lemma validate_inputs_order self (user_nodes user_nodes' : list Node)
    (inputs : option PyDict) (all_inputs : PyDict) :
  combine_config_and_inputs (config (graph self)) (default ∅ inputs) = inr all_inputs →
  Forall well_linked user_nodes →
  user_nodes ≡ₚ user_nodes' →
  outcome (validate_inputs self user_nodes inputs) =
  outcome (validate_inputs self user_nodes' inputs).
Proof.
  intros Hc Hwl Hp.
  assert (Forall well_linked user_nodes') as Hwl' by by rewrite <- Hp.
  destruct (validate_inputs_outcome _ _ _ _ Hc Hwl) as [-> _].
  destruct (validate_inputs_outcome _ _ _ _ Hc Hwl') as [-> _].
  assert (omap (violation self all_inputs) user_nodes ≡ₚ
          omap (violation self all_inputs) user_nodes') as Hperm by by rewrite Hp.
  assert (sort (omap (violation self all_inputs) user_nodes) =
          sort (omap (violation self all_inputs) user_nodes')) as Hsort.
  { apply (Sorted_unique String.le); try apply sort_Sorted.
    by rewrite !sort_Permutation. }
  destruct (omap _ user_nodes) as [|m1 l1], (omap _ user_nodes') as [|m2 l2];
    try done.
  - by apply Permutation_nil_cons in Hperm.
  - symmetry in Hperm. by apply Permutation_nil_cons in Hperm.
  - by rewrite Hsort.
Qed.

Lemma occurs_name_missing_msg v : occurs (name v) (missing_msg v).
Proof. unfold missing_msg. apply occurs_app_r, occurs_app_l, occurs_refl. Qed.

Lemma occurs_dependent_missing_msg v d :
  d ∈ depended_on_by v → occurs (repr_str (name d)) (missing_msg v).
Proof.
  intros Hin. unfold missing_msg, str_list.
  do 4 apply occurs_app_r. apply occurs_app_l, occurs_app_r, occurs_app_l, occurs_join.
  apply list_elem_of_fmap. exists (name d). split; [done|].
  apply list_elem_of_fmap. by exists d.
Qed.

(** C3: for a user node [v] whose name is absent from the combined config
    and inputs: if some dependent declares it REQUIRED, validation raises a
    [ValueError] whose text holds the entry for [v], which names [v] and
    every dependent of [v] (so every requiring one); if no dependent
    requires it, [v] stands for no violation and validation runs exactly as
    it does without [v]. *)
Theorem missing_input_error_iff_required self (user_nodes : list Node)
    (inputs : option PyDict) (all_inputs : PyDict) v :
  combine_config_and_inputs (config (graph self)) (default ∅ inputs) = inr all_inputs →
  Forall well_linked user_nodes →
  v ∈ user_nodes →
  all_inputs !! name v = None →
  (Exists (requires (name v)) (depended_on_by v) →
     ∃ msg, outcome (validate_inputs self user_nodes inputs) = inl (Raise ValueError msg) ∧
       occurs (missing_msg v) msg ∧
       occurs (name v) msg ∧
       ∀ d, d ∈ depended_on_by v → requires (name v) d →
            occurs (repr_str (name d)) msg) ∧
  (¬ Exists (requires (name v)) (depended_on_by v) →
     violation self all_inputs v = None ∧
     ∀ l1 l2 tr, user_nodes = l1 ++ v :: l2 →
       validate_inputs self user_nodes inputs tr =
       validate_inputs self (l1 ++ l2) inputs tr).
Proof.
  intros Hc Hwl Hin Hv. split.
  - intros Hreq%existsb_requires.
    assert (violation self all_inputs v = Some (missing_msg v)) as Hviol.
    { unfold violation. by rewrite Hv, Hreq. }
    destruct (validate_inputs_reports _ _ _ _ _ _ Hc Hwl Hin Hviol) as (msg & Hout & Hocc).
    exists msg. split; [done|]. split; [done|]. split.
    + eapply occurs_trans; [apply occurs_name_missing_msg | done].
    + intros d Hd _. eapply occurs_trans; [by apply occurs_dependent_missing_msg | done].
  - intros Hnreq. rewrite <- existsb_requires in Hnreq.
    apply not_true_is_false in Hnreq. split.
    { unfold violation. by rewrite Hv, Hnreq. }
    intros l1 l2 tr ->. apply validate_inputs_skip.
    intros all_inputs' errors tr' Hc'. assert (all_inputs' = all_inputs) as -> by congruence.
    rewrite Forall_forall in Hwl.
    rewrite validate_node_spec by (intros _; by apply Hwl).
    unfold violation, check_calls. rewrite Hv, Hnreq. simpl. by rewrite !app_nil_r.
Qed.

Lemma occurs_type_mismatch_msg v (value : Value) :
  occurs (str_type (type v)) (mismatch_msg v value) ∧
  occurs (str_value value) (mismatch_msg v value).
Proof.
  unfold mismatch_msg. split.
  - do 3 apply occurs_app_r. apply occurs_app_l, occurs_refl.
  - do 5 apply occurs_app_r. apply occurs_app_l, occurs_refl.
Qed.

(** C4, amended: for a user node [v] whose name is present in the combined
    config and inputs with a value other than [None], if the adapter's
    [check_input_type] rejects the value for the node's declared type,
    validation raises a [ValueError] whose text holds the entry for [v],
    which shows the expected type and the actual value. *)
Theorem type_mismatch_error self (user_nodes : list Node)
    (inputs : option PyDict) (all_inputs : PyDict) v (o : Obj) :
  combine_config_and_inputs (config (graph self)) (default ∅ inputs) = inr all_inputs →
  Forall well_linked user_nodes →
  v ∈ user_nodes →
  all_inputs !! name v = Some (PyObj o) →
  check_input_type (adapter self) (type v) (PyObj o) = false →
  ∃ msg, outcome (validate_inputs self user_nodes inputs) = inl (Raise ValueError msg) ∧
    occurs (mismatch_msg v (PyObj o)) msg ∧
    occurs (str_type (type v)) msg ∧
    occurs (str_value (PyObj o)) msg ∧
    call_check_input_type (type v) (PyObj o) ∈
      events (validate_inputs self user_nodes inputs).
Proof.
  intros Hc Hwl Hin Hv Hcheck.
  assert (violation self all_inputs v = Some (mismatch_msg v (PyObj o))) as Hviol.
  { unfold violation. by rewrite Hv, Hcheck. }
  destruct (validate_inputs_reports _ _ _ _ _ _ Hc Hwl Hin Hviol) as (msg & Hout & Hocc).
  destruct (occurs_type_mismatch_msg v (PyObj o)) as [Ht Hval].
  exists msg. repeat split; try done; try (by eapply occurs_trans).
  destruct (validate_inputs_outcome _ _ _ _ Hc Hwl) as [_ ->].
  apply list_elem_of_bind. exists v. split; [|done].
  unfold check_calls. rewrite Hv. apply list_elem_of_singleton. done.
Qed.

(** C10: when the combined config and inputs hold [None] for a user node
    [v], the iteration for [v] leaves the error list and the trace as they
    were, whatever the node's declared type and whatever the adapter would
    answer: the adapter's [check_input_type] is not called for [v] and no
    message is added.  Validation of any node list runs exactly as it does
    without [v]. *)
Theorem none_bypasses_type_check self (inputs : option PyDict)
    (all_inputs : PyDict) v :
  combine_config_and_inputs (config (graph self)) (default ∅ inputs) = inr all_inputs →
  all_inputs !! name v = Some PyNone →
  (∀ errors tr, validate_node self all_inputs v errors tr = (tr, inr errors)) ∧
  events (validate_inputs self [v] inputs) = [] ∧
  outcome (validate_inputs self [v] inputs) = inr tt ∧
  (∀ l1 l2 tr,
     validate_inputs self (l1 ++ v :: l2) inputs tr =
     validate_inputs self (l1 ++ l2) inputs tr).
Proof.
  intros Hc Hv.
  assert (∀ errors tr, validate_node self all_inputs v errors tr = (tr, inr errors))
    as Hnode.
  { intros errors tr. unfold validate_node. by rewrite Hv. }
  split; [done|].
  assert (validate_inputs self [v] inputs [] = ([], inr tt)) as Hrun.
  { rewrite validate_inputs_unfold, Hc. simpl. munfold. by rewrite Hnode. }
  unfold events, outcome. rewrite Hrun. split; [done|]. split; [done|].
  intros l1 l2 tr. apply validate_inputs_skip.
  intros all_inputs' errors tr' Hc'. assert (all_inputs' = all_inputs) as -> by congruence.
  apply Hnode.
Qed.

(** ** Runs of the driver's methods *)

Create HintDb uniform.

Ltac uniform_solve := uniform_tac; auto with uniform.

Lemma visualize_execution_uniform self (final_vars : list string) (path : string)
    (render_kwargs : gmap string bool) (inputs : option PyDict) :
  uniform (visualize_execution self final_vars path render_kwargs inputs).
Proof.
  unfold visualize_execution. uniform_tac. apply validate_inputs_uniform.
Qed.

Lemma has_cycles_uniform self (final_vars : list string) :
  uniform (has_cycles self final_vars).
Proof. unfold has_cycles. uniform_tac. Qed.

Lemma deprecated_flow_uniform self (final_vars : list string) (display_graph : bool) :
  uniform (deprecated_flow self final_vars display_graph).
Proof.
  unfold deprecated_flow. uniform_tac;
    auto using visualize_execution_uniform, has_cycles_uniform.
Qed.

Lemma raw_execute_unfold self (final_vars : list string) (overrides : option PyDict)
    (display_graph : bool) (inputs : option PyDict) :
  raw_execute self final_vars overrides display_graph inputs =
    ('(nodes, user_nodes) ←
       (emit (call_get_upstream_nodes final_vars inputs);;
        lift (get_upstream_nodes (graph self) final_vars inputs));
     validate_inputs self user_nodes inputs;;
     deprecated_flow self final_vars display_graph;;
     memoized_computation ←
       (emit (call_graph_execute nodes ∅ overrides inputs);;
        lift (graph_execute (graph self) nodes ∅ overrides inputs));
     outputs ← lift (outputs_comprehension memoized_computation final_vars []);
     ret outputs).
Proof. done. Qed.

Lemma raw_execute_uniform self (final_vars : list string) (overrides : option PyDict)
    (display_graph : bool) (inputs : option PyDict) :
  uniform (raw_execute self final_vars overrides display_graph inputs).
Proof.
  rewrite raw_execute_unfold. uniform_tac;
    auto using validate_inputs_uniform, deprecated_flow_uniform.
Qed.

Lemma execute_body_uniform self (final_vars : list string) (overrides : option PyDict)
    (display_graph : bool) (inputs : option PyDict) :
  uniform (execute_body self final_vars overrides display_graph inputs).
Proof. unfold execute_body. uniform_tac. apply raw_execute_uniform. Qed.

Lemma execute_uniform self (final_vars : list string) (overrides : option PyDict)
    (display_graph : bool) (inputs : option PyDict) :
  uniform (execute self final_vars overrides display_graph inputs).
Proof. unfold execute. uniform_tac; apply raw_execute_uniform. Qed.

Lemma __init___uniform (config : PyDict) (modules : list PyModule)
    (adapter : option HamiltonGraphAdapter) :
  uniform (__init__ config modules adapter).
Proof. unfold __init__. uniform_tac. Qed.

#[local] Hint Resolve validate_inputs_uniform visualize_execution_uniform
  has_cycles_uniform deprecated_flow_uniform raw_execute_uniform
  execute_body_uniform execute_uniform : uniform.

(** Rewrites the events and the outcome of a composed run into those of
    its parts. *)
Ltac run_simpl :=
  repeat first
    [ rewrite events_bind by uniform_solve
    | rewrite outcome_bind by uniform_solve
    | rewrite events_try_except by uniform_solve
    | rewrite outcome_try_except by uniform_solve
    | rewrite events_emit | rewrite outcome_emit
    | rewrite events_lift | rewrite outcome_lift
    | rewrite (events_ret (A:=_)) | rewrite (outcome_ret (A:=_))
    | rewrite events_raise | rewrite outcome_raise
    | progress simpl ].

Lemma has_cycles_run self (final_vars : list string) :
  events (has_cycles self final_vars) =
    call_get_upstream_nodes final_vars None ::
    match get_upstream_nodes (graph self) final_vars None with
    | inl _ => []
    | inr (nodes, user_nodes) => [call_graph_has_cycles nodes user_nodes]
    end ∧
  outcome (has_cycles self final_vars) =
    match get_upstream_nodes (graph self) final_vars None with
    | inl e => inl e
    | inr (nodes, user_nodes) => graph_has_cycles (graph self) nodes user_nodes
    end.
Proof.
  unfold has_cycles, events, outcome. munfold. simpl.
  by destruct (get_upstream_nodes _ _ _) as [e|[nodes user_nodes]].
Qed.

Lemma visualize_execution_run self (final_vars : list string) (path : string)
    (render_kwargs : gmap string bool) (inputs : option PyDict) :
  events (visualize_execution self final_vars path render_kwargs inputs) =
    call_get_upstream_nodes final_vars inputs ::
    match get_upstream_nodes (graph self) final_vars inputs with
    | inl _ => []
    | inr (nodes, user_nodes) =>
        events (validate_inputs self user_nodes inputs) ++
        match outcome (validate_inputs self user_nodes inputs) with
        | inl _ => []
        | inr _ =>
            call_graph_display nodes user_nodes path render_kwargs ::
            match graph_display (graph self) nodes user_nodes path render_kwargs with
            | inl e =>
                if isinstance_ImportError e
                then [logger_warning ("Unable to import " ++ exc_str e)] else []
            | inr _ => []
            end
        end
    end ∧
  outcome (visualize_execution self final_vars path render_kwargs inputs) =
    match get_upstream_nodes (graph self) final_vars inputs with
    | inl e => inl e
    | inr (nodes, user_nodes) =>
        match outcome (validate_inputs self user_nodes inputs) with
        | inl e => inl e
        | inr _ =>
            match graph_display (graph self) nodes user_nodes path render_kwargs with
            | inl e => if isinstance_ImportError e then inr tt else inl e
            | inr _ => inr tt
            end
        end
    end.
Proof.
  unfold visualize_execution. run_simpl.
  destruct (get_upstream_nodes _ _ _) as [e|[nodes user_nodes]]; [done|].
  run_simpl.
  destruct (outcome (validate_inputs _ _ _)) as [e|[]]; [done|].
  run_simpl.
  destruct (graph_display _ _ _ _ _) as [e|[]]; [|done].
  by destruct (isinstance_ImportError e).
Qed.

Lemma deprecated_flow_run self (final_vars : list string) :
  let visualize :=
    visualize_execution self final_vars "test-output/execute.gv" {[ "view" := true ]} None in
  events (deprecated_flow self final_vars true) =
    logger_warning deprecation_warning :: events visualize ++
    match outcome visualize with
    | inl _ => []
    | inr _ => events (has_cycles self final_vars)
    end ∧
  outcome (deprecated_flow self final_vars true) =
    match outcome visualize with
    | inl e => inl e
    | inr _ =>
        match outcome (has_cycles self final_vars) with
        | inl e => inl e
        | inr true => inl (Raise ValueError "Error: cycles detected in you graph.")
        | inr false => inr tt
        end
    end.
Proof.
  intros visualize. subst visualize. unfold deprecated_flow. run_simpl.
  destruct (outcome (visualize_execution _ _ _ _ _)) as [e|[]]; [done|].
  run_simpl.
  destruct (outcome (has_cycles _ _)) as [e|[|]]; run_simpl; by rewrite ?app_nil_r.
Qed.

Lemma raw_execute_run self (final_vars : list string) (overrides : option PyDict)
    (display_graph : bool) (inputs : option PyDict) :
  events (raw_execute self final_vars overrides display_graph inputs) =
    call_get_upstream_nodes final_vars inputs ::
    match get_upstream_nodes (graph self) final_vars inputs with
    | inl _ => []
    | inr (nodes, user_nodes) =>
        events (validate_inputs self user_nodes inputs) ++
        match outcome (validate_inputs self user_nodes inputs) with
        | inl _ => []
        | inr _ =>
            events (deprecated_flow self final_vars display_graph) ++
            match outcome (deprecated_flow self final_vars display_graph) with
            | inl _ => []
            | inr _ => [call_graph_execute nodes ∅ overrides inputs]
            end
        end
    end ∧
  outcome (raw_execute self final_vars overrides display_graph inputs) =
    match get_upstream_nodes (graph self) final_vars inputs with
    | inl e => inl e
    | inr (nodes, user_nodes) =>
        match outcome (validate_inputs self user_nodes inputs) with
        | inl e => inl e
        | inr _ =>
            match outcome (deprecated_flow self final_vars display_graph) with
            | inl e => inl e
            | inr _ =>
                match graph_execute (graph self) nodes ∅ overrides inputs with
                | inl e => inl e
                | inr memo => outputs_comprehension memo final_vars []
                end
            end
        end
    end.
Proof.
  rewrite raw_execute_unfold. run_simpl.
  destruct (get_upstream_nodes _ _ _) as [e|[nodes user_nodes]]; [done|].
  run_simpl.
  destruct (outcome (validate_inputs _ _ _)) as [e|[]]; [done|].
  run_simpl.
  destruct (outcome (deprecated_flow _ _ _)) as [e|[]]; [done|].
  run_simpl.
  destruct (graph_execute _ _ _ _ _) as [e|memo]; [done|].
  run_simpl.
  by destruct (outputs_comprehension _ _ _).
Qed.

Lemma execute_body_run self (final_vars : list string) (overrides : option PyDict)
    (display_graph : bool) (inputs : option PyDict) :
  let raw := raw_execute self final_vars overrides display_graph inputs in
  events (execute_body self final_vars overrides display_graph inputs) =
    events raw ++
    match outcome raw with
    | inl _ => []
    | inr outputs => [call_build_result outputs]
    end ∧
  outcome (execute_body self final_vars overrides display_graph inputs) =
    match outcome raw with
    | inl e => inl e
    | inr outputs => build_result (adapter self) outputs
    end.
Proof.
  intros raw. subst raw. unfold execute_body. run_simpl.
  destruct (outcome (raw_execute _ _ _ _ _)) as [e|outputs]; [done|]. by run_simpl.
Qed.

Lemma execute_run self (final_vars : list string) (overrides : option PyDict)
    (display_graph : bool) (inputs : option PyDict) :
  let body := execute_body self final_vars overrides display_graph inputs in
  events (execute self final_vars overrides display_graph inputs) =
    (if display_graph then [logger_warning deprecation_warning] else []) ++
    events body ++
    match outcome body with
    | inl e =>
        if isinstance_Exception e then [logger_error DISCORD_ERROR_MESSAGE] else []
    | inr _ => []
    end ∧
  outcome (execute self final_vars overrides display_graph inputs) = outcome body.
Proof.
  intros body. subst body. unfold execute.
  fold (execute_body self final_vars overrides display_graph inputs).
  rewrite events_bind, outcome_bind by uniform_solve.
  rewrite events_try_except, outcome_try_except by uniform_solve.
  replace (outcome (if display_graph then emit (logger_warning deprecation_warning) else ret ()))
    with (inr (A:=PyExc) ()) by by destruct display_graph.
  replace (events (if display_graph then emit (logger_warning deprecation_warning) else ret ()))
    with (if display_graph then [logger_warning deprecation_warning] else [])
    by by destruct display_graph.
  destruct (outcome (execute_body _ _ _ _ _)) as [e|r]; [|done].
  destruct (isinstance_Exception e); run_simpl; done.
Qed.

Lemma __init___run (config : PyDict) (modules : list PyModule)
    (adapter0 : option HamiltonGraphAdapter) :
  let adapter := default SimplePythonDataFrameGraphAdapter adapter0 in
  events (__init__ config modules adapter0) =
    call_FunctionGraph modules config ::
    match FunctionGraph_init modules config adapter with
    | inl e =>
        if isinstance_Exception e then [logger_error DISCORD_ERROR_MESSAGE] else []
    | inr _ => []
    end ∧
  outcome (__init__ config modules adapter0) =
    match FunctionGraph_init modules config adapter with
    | inl e => inl e
    | inr g => inr {| graph := g; adapter := adapter |}
    end.
Proof.
  intros adapter. subst adapter. unfold __init__.
  replace (match adapter0 with Some a => a | None => SimplePythonDataFrameGraphAdapter end)
    with (default SimplePythonDataFrameGraphAdapter adapter0) by by destruct adapter0.
  run_simpl.
  destruct (FunctionGraph_init _ _ _) as [e|g]; [|done].
  destruct (isinstance_Exception e); by run_simpl.
Qed.

(** ** The outputs dict *)

Lemma pydict_set_keys (k : string) (val : Value) (d : list (string * Value)) :
  (pydict_set k val d).*1 = if decide (k ∈ d.*1) then d.*1 else d.*1 ++ [k].
Proof.
  induction d as [|[k' val'] d IH]; [done|].
  cbn [pydict_set]. rewrite fmap_cons. cbn [fst].
  destruct (decide (k = k')) as [->|Hne].
  - rewrite decide_True by apply list_elem_of_here. done.
  - rewrite fmap_cons, IH. cbn [fst]. destruct (decide (k ∈ d.*1)) as [Hin|Hnin].
    + rewrite decide_True by by apply list_elem_of_further. done.
    + rewrite decide_False; [done|].
      intros [?|?]%elem_of_cons; done.
Qed.

Lemma pydict_set_NoDup (k : string) (val : Value) (d : list (string * Value)) :
  NoDup d.*1 → NoDup (pydict_set k val d).*1.
Proof.
  intros Hnd. rewrite pydict_set_keys. case_decide; [done|].
  apply NoDup_app. split; [done|]. split; [|apply NoDup_singleton].
  intros x Hx ->%list_elem_of_singleton. done.
Qed.

Lemma pydict_set_elem_of (k c : string) (val x : Value) (d : list (string * Value)) :
  (c, x) ∈ pydict_set k val d → (c = k ∧ x = val) ∨ (c, x) ∈ d.
Proof.
  induction d as [|[k' val'] d IH]; simpl.
  - intros [=]%list_elem_of_singleton. by left.
  - destruct (decide (k = k')) as [->|Hne].
    + intros [[=]|Hin]%elem_of_cons; [by left|]. right. by apply list_elem_of_further.
    + intros [[=]|Hin]%elem_of_cons.
      * subst. right. apply list_elem_of_here.
      * destruct (IH Hin) as [?|?]; [by left|]. right. by apply list_elem_of_further.
Qed.

Lemma outputs_comprehension_spec (memo : PyDict) (final_vars : list string)
    (acc outputs : list (string * Value)) :
  outputs_comprehension memo final_vars acc = inr outputs →
  (NoDup acc.*1 → NoDup outputs.*1) ∧
  (∀ c, c ∈ outputs.*1 ↔ c ∈ acc.*1 ∨ c ∈ final_vars) ∧
  (∀ c x, (c, x) ∈ outputs → (c, x) ∈ acc ∨ (c ∈ final_vars ∧ memo !! c = Some x)) ∧
  (∀ c, c ∈ final_vars → is_Some (memo !! c)).
Proof.
  revert acc. induction final_vars as [|c0 final_vars IH]; intros acc; simpl.
  - intros [= ->]. split; [done|]. split; [|split].
    + intros c. rewrite elem_of_nil. tauto.
    + intros c x Hin. by left.
    + intros c Hc. by apply elem_of_nil in Hc.
  - destruct (memo !! c0) as [x0|] eqn:Hc0; [|done].
    intros (Hnd & Hkeys & Hvals & Hmemo)%IH.
    split; [|split; [|split]].
    + intros Hacc. by apply Hnd, pydict_set_NoDup.
    + intros c. rewrite Hkeys, pydict_set_keys, elem_of_cons.
      case_decide as Hin.
      * split; [tauto|]. intros [?|[->|?]]; tauto.
      * rewrite elem_of_app, list_elem_of_singleton. tauto.
    + intros c x [Hin|[Hin Hx]]%Hvals.
      * apply pydict_set_elem_of in Hin as [[-> ->]|Hin]; [|by left].
        right. split; [apply list_elem_of_here | done].
      * right. split; [by apply list_elem_of_further | done].
    + intros c [->|Hc]%elem_of_cons; [by eexists | by apply Hmemo].
Qed.

(** ** Events that compute or build nothing *)

Lemma validate_inputs_events self (user_nodes : list Node) (inputs : option PyDict) :
  Forall (λ ev, is_call_check_input_type ev = true)
    (events (validate_inputs self user_nodes inputs)).
Proof.
  destruct (validate_inputs_trace self user_nodes inputs []) as (evs & Hevs & HF).
  unfold events. by rewrite Hevs.
Qed.

Lemma validate_inputs_flow_events self (user_nodes : list Node) (inputs : option PyDict) :
  Forall (λ ev, is_flow_event ev = true) (events (validate_inputs self user_nodes inputs)).
Proof.
  eapply Forall_impl; [apply validate_inputs_events|].
  by intros [] ?.
Qed.

Lemma deprecated_flow_events self (final_vars : list string) (display_graph : bool) :
  Forall (λ ev, is_flow_event ev = true)
    (events (deprecated_flow self final_vars display_graph)).
Proof.
  destruct display_graph; [|by constructor].
  destruct (deprecated_flow_run self final_vars) as [-> _].
  destruct (visualize_execution_run self final_vars "test-output/execute.gv"
              {[ "view" := true ]} None) as [-> _].
  destruct (has_cycles_run self final_vars) as [-> _].
  repeat first
    [ apply Forall_cons; split; [done|]
    | apply Forall_app; split
    | apply validate_inputs_flow_events
    | apply Forall_nil_2
    | match goal with
      | |- Forall _ (match ?x with _ => _ end) => destruct x
      | |- Forall _ (if ?x then _ else _) => destruct x
      end ].
Qed.

Lemma flow_event_quiet (l : list Event) :
  Forall (λ ev, is_flow_event ev = true) l → Forall quiet l.
Proof. intros H. eapply Forall_impl; [exact H|]. by intros [] ?. Qed.

Lemma flow_event_not_logger_error (l : list Event) :
  Forall (λ ev, is_flow_event ev = true) l →
  Forall (λ ev, is_logger_error ev = false) l.
Proof. intros H. eapply Forall_impl; [exact H|]. by intros [] ?. Qed.

Lemma validate_inputs_quiet self (user_nodes : list Node) (inputs : option PyDict) :
  Forall quiet (events (validate_inputs self user_nodes inputs)).
Proof. apply flow_event_quiet, validate_inputs_flow_events. Qed.

Lemma deprecated_flow_quiet self (final_vars : list string) (display_graph : bool) :
  Forall quiet (events (deprecated_flow self final_vars display_graph)).
Proof. apply flow_event_quiet, deprecated_flow_events. Qed.

Lemma quiet_not_graph_execute (l : list Event) (nodes : list Node) (memo : PyDict)
    (overrides inputs : option PyDict) :
  Forall quiet l → call_graph_execute nodes memo overrides inputs ∉ l.
Proof.
  rewrite Forall_forall. intros Hq Hin. by destruct (Hq _ Hin).
Qed.

(** The events of [raw_execute]: events that compute nothing, then at most
    the one call that executes the graph, on an empty memo and after
    validation passed. *)
Lemma raw_execute_events_shape self (final_vars : list string)
    (overrides : option PyDict) (display_graph : bool) (inputs : option PyDict) :
  ∃ evs tail : list Event,
    events (raw_execute self final_vars overrides display_graph inputs) = evs ++ tail ∧
    Forall (λ ev, is_flow_event ev = true) evs ∧
    (tail = [] ∨
     ∃ nodes user_nodes,
       tail = [call_graph_execute nodes ∅ overrides inputs] ∧
       get_upstream_nodes (graph self) final_vars inputs = inr (nodes, user_nodes) ∧
       outcome (validate_inputs self user_nodes inputs) = inr tt).
Proof.
  destruct (raw_execute_run self final_vars overrides display_graph inputs) as [-> _].
  pose proof (deprecated_flow_events self final_vars display_graph) as Hflow.
  destruct (get_upstream_nodes _ _ _) as [e|[nodes user_nodes]] eqn:Hup.
  { exists [call_get_upstream_nodes final_vars inputs], [].
    split; [done|]. split; [by repeat constructor | by left]. }
  pose proof (validate_inputs_flow_events self user_nodes inputs) as Hval.
  destruct (outcome (validate_inputs _ _ _)) as [e|[]] eqn:Hvo.
  { eexists _, []. rewrite !app_nil_r. split; [done|].
    split; [by apply Forall_cons | by left]. }
  destruct (outcome (deprecated_flow _ _ _)) as [e|[]].
  { eexists _, []. rewrite !app_nil_r. split; [done|].
    split; [|by left]. apply Forall_cons. split; [done|]. by apply Forall_app. }
  exists (call_get_upstream_nodes final_vars inputs ::
            events (validate_inputs self user_nodes inputs) ++
            events (deprecated_flow self final_vars display_graph)),
         [call_graph_execute nodes ∅ overrides inputs].
  split; [by rewrite <- app_comm_cons, <- (assoc_L (++))|].
  split; [|right; by exists nodes, user_nodes].
  apply Forall_cons. split; [done|]. by apply Forall_app.
Qed.

(** ** Claims about execution *)

Lemma execute_outcome self (final_vars : list string) (overrides : option PyDict)
    (display_graph : bool) (inputs : option PyDict) :
  outcome (execute self final_vars overrides display_graph inputs) =
    match get_upstream_nodes (graph self) final_vars inputs with
    | inl e => inl e
    | inr (nodes, user_nodes) =>
        match outcome (validate_inputs self user_nodes inputs) with
        | inl e => inl e
        | inr _ =>
            match outcome (deprecated_flow self final_vars display_graph) with
            | inl e => inl e
            | inr _ =>
                match graph_execute (graph self) nodes ∅ overrides inputs with
                | inl e => inl e
                | inr memo =>
                    match outputs_comprehension memo final_vars [] with
                    | inl e => inl e
                    | inr outputs => build_result (adapter self) outputs
                    end
                end
            end
        end
    end.
Proof.
  destruct (execute_run self final_vars overrides display_graph inputs) as [_ ->].
  destruct (execute_body_run self final_vars overrides display_graph inputs) as [_ ->].
  destruct (raw_execute_run self final_vars overrides display_graph inputs) as [_ ->].
  destruct (get_upstream_nodes _ _ _) as [e|[nodes user_nodes]]; [done|].
  destruct (outcome (validate_inputs _ _ _)) as [e|[]]; [done|].
  destruct (outcome (deprecated_flow _ _ _)) as [e|[]]; [done|].
  by destruct (graph_execute _ _ _ _ _) as [e|memo].
Qed.

(** C5: when [execute] returns a result, the upstream closure of the
    requested outputs was computed, validation of its user nodes passed,
    the graph was executed on the closure into an empty memo, the outputs
    dict holds exactly the requested names, each with its value in the
    memo, and the result is what the adapter's [build_result] returns for
    that dict; the calls happen in this order. *)
Theorem execute_returns_requested_outputs self (final_vars : list string)
    (overrides : option PyDict) (display_graph : bool) (inputs : option PyDict)
    (r : Res) :
  outcome (execute self final_vars overrides display_graph inputs) = inr r →
  ∃ (nodes user_nodes : list Node) (memo : PyDict) (outputs : list (string * Value)),
    get_upstream_nodes (graph self) final_vars inputs = inr (nodes, user_nodes) ∧
    outcome (validate_inputs self user_nodes inputs) = inr tt ∧
    graph_execute (graph self) nodes ∅ overrides inputs = inr memo ∧
    outputs_comprehension memo final_vars [] = inr outputs ∧
    NoDup outputs.*1 ∧
    (∀ c, c ∈ outputs.*1 ↔ c ∈ final_vars) ∧
    (∀ c x, (c, x) ∈ outputs ↔ c ∈ final_vars ∧ memo !! c = Some x) ∧
    build_result (adapter self) outputs = inr r ∧
    events (execute self final_vars overrides display_graph inputs) =
      (if display_graph then [logger_warning deprecation_warning] else []) ++
      [call_get_upstream_nodes final_vars inputs] ++
      events (validate_inputs self user_nodes inputs) ++
      events (deprecated_flow self final_vars display_graph) ++
      [call_graph_execute nodes ∅ overrides inputs; call_build_result outputs].
Proof.
  intros Hr.
  destruct (execute_run self final_vars overrides display_graph inputs) as [Hev Hout].
  destruct (execute_body_run self final_vars overrides display_graph inputs) as [Hbev Hbout].
  destruct (raw_execute_run self final_vars overrides display_graph inputs) as [Hrev Hrout].
  rewrite Hev, Hbev, Hrev. rewrite Hout, Hbout in Hr. rewrite Hbout, Hrout. clear Hev Hbev Hrev Hout Hbout.
  rewrite Hrout in Hr. clear Hrout.
  destruct (get_upstream_nodes _ _ _) as [e|[nodes user_nodes]] eqn:Hup; [done|].
  destruct (outcome (validate_inputs _ _ _)) as [e|[]] eqn:Hval; [done|].
  destruct (outcome (deprecated_flow _ _ _)) as [e|[]]; [done|].
  destruct (graph_execute _ _ _ _ _) as [e|memo] eqn:Hexec; [done|].
  destruct (outputs_comprehension _ _ _) as [e|outputs] eqn:Hcomp; [done|].
  exists nodes, user_nodes, memo, outputs.
  destruct (outputs_comprehension_spec _ _ _ _ Hcomp) as (Hnd & Hkeys & Hvals & Hmemo).
  assert (∀ c, c ∈ outputs.*1 ↔ c ∈ final_vars) as Hkeys'.
  { intros c. rewrite Hkeys, fmap_nil, elem_of_nil. tauto. }
  split; [done|]. split; [done|]. split; [done|]. split; [done|].
  split; [apply Hnd; constructor|]. split; [done|]. split; [|split; [done|]].
  - intros c x. split.
    + intros Hin. apply Hvals in Hin as [Hin|[? ?]]; [by apply elem_of_nil in Hin | done].
    + intros [Hc Hx]. apply Hkeys' in Hc.
      apply list_elem_of_fmap in Hc as ([c' x'] & -> & Hin). simpl in *.
      destruct (Hvals _ _ Hin) as [Hnil|[_ Hx']]; [by apply elem_of_nil in Hnil|].
      by assert (x' = x) as -> by congruence.
  - rewrite Hr, app_nil_r. simpl. by rewrite <- !(assoc_L (++)).
Qed.

(** C9: a key present in both the graph's config and the runtime inputs
    of a call makes combining them fail, so [validate_inputs] raises the
    clash error without looking at any node; in [raw_execute] and
    [execute] this error ends the call right after the upstream closure
    was computed.  Whatever the closure computation does, the call ends in
    an error, and neither executes the graph nor builds a result. *)
Theorem config_inputs_clash_rejected self (inputs : PyDict) (k : string)
    (final_vars : list string) (overrides : option PyDict) (display_graph : bool) :
  is_Some (config (graph self) !! k) →
  is_Some (inputs !! k) →
  let e := clash_error (config (graph self)) inputs in
  combine_config_and_inputs (config (graph self)) inputs = inl e ∧
  (∀ user_nodes tr, validate_inputs self user_nodes (Some inputs) tr = (tr, inl e)) ∧
  (∀ nodes user_nodes,
     get_upstream_nodes (graph self) final_vars (Some inputs) = inr (nodes, user_nodes) →
     outcome (raw_execute self final_vars overrides display_graph (Some inputs)) = inl e ∧
     events (raw_execute self final_vars overrides display_graph (Some inputs)) =
       [call_get_upstream_nodes final_vars (Some inputs)] ∧
     outcome (execute self final_vars overrides display_graph (Some inputs)) = inl e) ∧
  (∃ e', outcome (execute self final_vars overrides display_graph (Some inputs)) = inl e' ∧
         (e' = e ∨ get_upstream_nodes (graph self) final_vars (Some inputs) = inl e')) ∧
  Forall quiet (events (execute self final_vars overrides display_graph (Some inputs))).
Proof.
  intros Hcfg Hinp e.
  assert (combine_config_and_inputs (config (graph self)) inputs = inl e) as Hc.
  { unfold combine_config_and_inputs. rewrite decide_False; [done|].
    apply elem_of_dom in Hcfg, Hinp. set_solver. }
  assert (∀ user_nodes tr, validate_inputs self user_nodes (Some inputs) tr = (tr, inl e))
    as Hval.
  { intros user_nodes tr. rewrite validate_inputs_unfold. simpl. by rewrite Hc. }
  assert (∀ user_nodes, outcome (validate_inputs self user_nodes (Some inputs)) = inl e)
    as Hvo by (intros user_nodes; unfold outcome; by rewrite Hval).
  assert (∀ user_nodes, events (validate_inputs self user_nodes (Some inputs)) = [])
    as Hve by (intros user_nodes; unfold events; by rewrite Hval).
  split; [done|]. split; [done|].
  destruct (execute_run self final_vars overrides display_graph (Some inputs)) as [Hev Hout].
  destruct (execute_body_run self final_vars overrides display_graph (Some inputs)) as [Hbev Hbout].
  destruct (raw_execute_run self final_vars overrides display_graph (Some inputs)) as [Hrev Hrout].
  rewrite Hout, Hbout, Hev, Hbev, Hbout, Hrev, Hrout.
  destruct (get_upstream_nodes _ _ _) as [e'|[nodes user_nodes]].
  - split; [done|]. split; [exists e'; split; [done | by right]|].
    destruct display_graph, (isinstance_Exception e'); by repeat constructor.
  - rewrite Hvo, Hve. split.
    { intros ? ? [= <- <-]. done. }
    split; [exists e; split; [done | by left]|].
    destruct display_graph, (isinstance_Exception e); by repeat constructor.
Qed.

(** C6: on every call of [execute], (1) if validation of the user nodes
    fails, [raw_execute] and [execute] end with that error, the run of
    [raw_execute] consists of the closure computation and the validation
    only, and the run of [execute] neither executes the graph nor builds a
    result; (2) whenever the graph is executed, it is executed on an empty
    memo, on the closure of the request, after validation passed; (3) the
    memo is not part of what [raw_execute] returns: the returned dict holds
    requested names only. *)
Theorem validation_precedes_computation self (final_vars : list string)
    (overrides : option PyDict) (display_graph : bool) (inputs : option PyDict) :
  (∀ nodes user_nodes e,
     get_upstream_nodes (graph self) final_vars inputs = inr (nodes, user_nodes) →
     outcome (validate_inputs self user_nodes inputs) = inl e →
     outcome (raw_execute self final_vars overrides display_graph inputs) = inl e ∧
     outcome (execute self final_vars overrides display_graph inputs) = inl e ∧
     events (raw_execute self final_vars overrides display_graph inputs) =
       call_get_upstream_nodes final_vars inputs ::
       events (validate_inputs self user_nodes inputs) ∧
     Forall quiet (events (execute self final_vars overrides display_graph inputs))) ∧
  (∀ nodes memo overrides' inputs',
     call_graph_execute nodes memo overrides' inputs' ∈
       events (execute self final_vars overrides display_graph inputs) →
     memo = ∅ ∧
     ∃ user_nodes,
       get_upstream_nodes (graph self) final_vars inputs = inr (nodes, user_nodes) ∧
       outcome (validate_inputs self user_nodes inputs) = inr tt) ∧
  (∀ outputs,
     outcome (raw_execute self final_vars overrides display_graph inputs) = inr outputs →
     ∀ c, c ∈ outputs.*1 → c ∈ final_vars).
Proof.
  destruct (execute_run self final_vars overrides display_graph inputs) as [Hev Hout].
  destruct (execute_body_run self final_vars overrides display_graph inputs) as [Hbev Hbout].
  destruct (raw_execute_run self final_vars overrides display_graph inputs) as [Hrev Hrout].
  split; [|split].
  - intros nodes user_nodes e Hup Hval.
    rewrite Hup, Hval in Hrev, Hrout. rewrite app_nil_r in Hrev.
    rewrite Hrout in Hbev, Hbout. rewrite Hbout in Hev.
    rewrite Hout, Hbout, Hev, Hbev, Hrev.
    split; [done|]. split; [done|]. split; [done|].
    apply Forall_app. split; [destruct display_graph; by repeat constructor|].
    apply Forall_app. split.
    + apply Forall_app. split; [|by constructor].
      apply Forall_cons. split; [done|]. apply validate_inputs_quiet.
    + destruct (isinstance_Exception e); by repeat constructor.
  - intros nodes memo overrides' inputs' Hin.
    destruct (raw_execute_events_shape self final_vars overrides display_graph inputs)
      as (evs & tail & Hshape & Hevs & Htail).
    rewrite Hev, Hbev, Hshape in Hin.
    rewrite !elem_of_app in Hin.
    destruct Hin as [Hin|[[[Hin|Hin]|Hin]|Hin]].
    + destruct display_graph; [|by apply elem_of_nil in Hin].
      by apply list_elem_of_singleton in Hin.
    + by apply (quiet_not_graph_execute _ _ _ _ _ (flow_event_quiet _ Hevs)) in Hin.
    + destruct Htail as [->|(nodes' & user_nodes & -> & Hup & Hval)].
      { by apply elem_of_nil in Hin. }
      apply list_elem_of_singleton in Hin. injection Hin as -> -> -> ->.
      split; [done|]. by exists user_nodes.
    + destruct (outcome (raw_execute _ _ _ _ _)); [by apply elem_of_nil in Hin|].
      by apply list_elem_of_singleton in Hin.
    + destruct (outcome (execute_body _ _ _ _ _)) as [e|r]; [|by apply elem_of_nil in Hin].
      destruct (isinstance_Exception e); [|by apply elem_of_nil in Hin].
      by apply list_elem_of_singleton in Hin.
  - intros outputs Hres c Hc. rewrite Hrout in Hres.
    destruct (get_upstream_nodes _ _ _) as [e|[nodes user_nodes]]; [done|].
    destruct (outcome (validate_inputs _ _ _)) as [e|[]]; [done|].
    destruct (outcome (deprecated_flow _ _ _)) as [e|[]]; [done|].
    destruct (graph_execute _ _ _ _ _) as [e|memo]; [done|].
    destruct (outputs_comprehension_spec _ _ _ _ Hres) as (_ & Hkeys & _).
    apply Hkeys in Hc as [Hc|Hc]; [by apply elem_of_nil in Hc | done].
Qed.

Lemma raw_execute_no_logger_error self (final_vars : list string)
    (overrides : option PyDict) (display_graph : bool) (inputs : option PyDict) :
  Forall (λ ev, is_logger_error ev = false)
    (events (raw_execute self final_vars overrides display_graph inputs)).
Proof.
  destruct (raw_execute_events_shape self final_vars overrides display_graph inputs)
    as (evs & tail & -> & Hevs & Htail).
  apply Forall_app. split; [by apply flow_event_not_logger_error|].
  destruct Htail as [->|(nodes & user_nodes & -> & _)]; by repeat constructor.
Qed.

(** An [ImportError] of the rendering is turned into a warning, the last
    record of [visualize_execution], which then returns. *)
Lemma visualize_execution_warns self (final_vars : list string) (path : string)
    (render_kwargs : gmap string bool) (inputs : option PyDict)
    (nodes user_nodes : list Node) (e : PyExc) :
  get_upstream_nodes (graph self) final_vars inputs = inr (nodes, user_nodes) →
  outcome (validate_inputs self user_nodes inputs) = inr tt →
  graph_display (graph self) nodes user_nodes path render_kwargs = inl e →
  isinstance_ImportError e = true →
  outcome (visualize_execution self final_vars path render_kwargs inputs) = inr tt ∧
  last (events (visualize_execution self final_vars path render_kwargs inputs)) =
    Some (logger_warning ("Unable to import " ++ exc_str e)).
Proof.
  intros Hup Hval Hdisp Himp.
  destruct (visualize_execution_run self final_vars path render_kwargs inputs) as [-> ->].
  rewrite Hup, Hval, Hdisp, Himp. split; [done|].
  rewrite app_comm_cons.
  change [call_graph_display nodes user_nodes path render_kwargs;
          logger_warning ("Unable to import " ++ exc_str e)]
    with ([call_graph_display nodes user_nodes path render_kwargs] ++
          [logger_warning ("Unable to import " ++ exc_str e)]).
  rewrite (assoc_L (++)). apply last_snoc.
Qed.

(** C7, amended: the constructor ends with the exception the graph
    constructor raised, unchanged, and returns a driver only when the graph
    constructor returned; [execute] ends with the exception of the first
    step that raises (closure computation, validation, the deprecated
    display flow, graph execution, collecting the outputs, building the
    result), unchanged, and returns a result only when every one of them
    returned.  Inside the deprecated display flow an [ImportError] raised
    by rendering is caught and logged as a warning, and the flow goes on;
    any other exception of the flow ends it.  An exception that is an
    instance of [Exception] is logged with [logger.error] before it
    leaves the constructor or [execute], as the last thing the call does;
    a call that returns logs no error. *)
Theorem exceptions_propagate_after_logging (cfg : PyDict)
    (modules : list PyModule) (adapter0 : option HamiltonGraphAdapter)
    self (final_vars : list string) (overrides : option PyDict)
    (display_graph : bool) (inputs : option PyDict) :
  let adapter1 := default SimplePythonDataFrameGraphAdapter adapter0 in
  let visualize :=
    visualize_execution self final_vars "test-output/execute.gv" {[ "view" := true ]} None in
  outcome (__init__ cfg modules adapter0) =
    match FunctionGraph_init modules cfg adapter1 with
    | inl e => inl e
    | inr g => inr {| graph := g; adapter := adapter1 |}
    end ∧
  (∀ e, outcome (__init__ cfg modules adapter0) = inl e →
        isinstance_Exception e = true →
        events (__init__ cfg modules adapter0) =
          [call_FunctionGraph modules cfg; logger_error DISCORD_ERROR_MESSAGE]) ∧
  outcome (execute self final_vars overrides display_graph inputs) =
    match get_upstream_nodes (graph self) final_vars inputs with
    | inl e => inl e
    | inr (nodes, user_nodes) =>
        match outcome (validate_inputs self user_nodes inputs) with
        | inl e => inl e
        | inr _ =>
            match outcome (deprecated_flow self final_vars display_graph) with
            | inl e => inl e
            | inr _ =>
                match graph_execute (graph self) nodes ∅ overrides inputs with
                | inl e => inl e
                | inr memo =>
                    match outputs_comprehension memo final_vars [] with
                    | inl e => inl e
                    | inr outputs => build_result (adapter self) outputs
                    end
                end
            end
        end
    end ∧
  outcome (deprecated_flow self final_vars false) = inr tt ∧
  outcome (deprecated_flow self final_vars true) =
    match outcome visualize with
    | inl e => inl e
    | inr _ =>
        match outcome (has_cycles self final_vars) with
        | inl e => inl e
        | inr true => inl (Raise ValueError "Error: cycles detected in you graph.")
        | inr false => inr tt
        end
    end ∧
  outcome visualize =
    match get_upstream_nodes (graph self) final_vars None with
    | inl e => inl e
    | inr (nodes, user_nodes) =>
        match outcome (validate_inputs self user_nodes None) with
        | inl e => inl e
        | inr _ =>
            match graph_display (graph self) nodes user_nodes
                    "test-output/execute.gv" {[ "view" := true ]} with
            | inl e => if isinstance_ImportError e then inr tt else inl e
            | inr _ => inr tt
            end
        end
    end ∧
  outcome (has_cycles self final_vars) =
    match get_upstream_nodes (graph self) final_vars None with
    | inl e => inl e
    | inr (nodes, user_nodes) => graph_has_cycles (graph self) nodes user_nodes
    end ∧
  (∀ e, outcome (execute self final_vars overrides display_graph inputs) = inl e →
        isinstance_Exception e = true →
        last (events (execute self final_vars overrides display_graph inputs)) =
          Some (logger_error DISCORD_ERROR_MESSAGE)) ∧
  (∀ r, outcome (execute self final_vars overrides display_graph inputs) = inr r →
        Forall (λ ev, is_logger_error ev = false)
          (events (execute self final_vars overrides display_graph inputs))) ∧
  (∀ nodes user_nodes e,
     get_upstream_nodes (graph self) final_vars None = inr (nodes, user_nodes) →
     outcome (validate_inputs self user_nodes None) = inr tt →
     graph_display (graph self) nodes user_nodes
       "test-output/execute.gv" {[ "view" := true ]} = inl e →
     isinstance_ImportError e = true →
     outcome visualize = inr tt ∧
     last (events visualize) = Some (logger_warning ("Unable to import " ++ exc_str e))).
Proof.
  intros adapter1 visualize.
  destruct (__init___run cfg modules adapter0) as [Hiev Hiout].
  split; [done|]. split.
  { intros e He Hexc. rewrite Hiev. rewrite Hiout in He. fold adapter1. fold adapter1 in He.
    destruct (FunctionGraph_init _ _ _) as [e'|g]; [|done].
    injection He as ->. by rewrite Hexc. }
  split; [apply execute_outcome|]. split; [done|].
  split; [apply deprecated_flow_run|].
  split; [apply visualize_execution_run|].
  split; [apply has_cycles_run|].
  destruct (execute_run self final_vars overrides display_graph inputs) as [Hev Hout].
  destruct (execute_body_run self final_vars overrides display_graph inputs) as [Hbev Hbout].
  split; [|split]; [| |by apply visualize_execution_warns].
  - intros e He Hexc. rewrite Hev. rewrite Hout in He. rewrite He, Hexc.
    by rewrite !(assoc_L (++)), last_snoc.
  - intros r Hr. rewrite Hev. rewrite Hout in Hr. rewrite Hr, app_nil_r, Hbev.
    apply Forall_app. split; [destruct display_graph; by repeat constructor|].
    apply Forall_app. split; [apply raw_execute_no_logger_error|].
    destruct (outcome (raw_execute _ _ _ _ _)); by repeat constructor.
Qed.

Lemma validate_inputs_with_has_cycles self
    (has_cycles' : list Node → list Node → PyExc + bool)
    (user_nodes : list Node) (inputs : option PyDict) tr :
  validate_inputs (with_has_cycles self has_cycles') user_nodes inputs tr =
  validate_inputs self user_nodes inputs tr.
Proof.
  rewrite !validate_inputs_unfold. simpl.
  destruct (combine_config_and_inputs _ _) as [e|all_inputs]; [done|].
  assert (∀ errors tr',
    validate_loop (with_has_cycles self has_cycles') all_inputs user_nodes errors tr' =
    validate_loop self all_inputs user_nodes errors tr') as ->; [|done].
  induction user_nodes as [|v user_nodes IH]; intros errors tr'; [done|].
  simpl. munfold.
  change (validate_node (with_has_cycles self has_cycles') all_inputs v errors tr')
    with (validate_node self all_inputs v errors tr').
  destruct (validate_node _ _ _ _ _) as [tr1 [e|errors1]]; [done|]. apply IH.
Qed.

Lemma execute_with_has_cycles self
    (has_cycles' : list Node → list Node → PyExc + bool)
    (final_vars : list string) (overrides inputs : option PyDict) tr :
  execute (with_has_cycles self has_cycles') final_vars overrides false inputs tr =
  execute self final_vars overrides false inputs tr.
Proof.
  set (self' := with_has_cycles self has_cycles').
  assert (∀ user_nodes,
    events (validate_inputs self' user_nodes inputs) =
      events (validate_inputs self user_nodes inputs) ∧
    outcome (validate_inputs self' user_nodes inputs) =
      outcome (validate_inputs self user_nodes inputs)) as Hval.
  { intros user_nodes. unfold events, outcome, self'.
    by rewrite validate_inputs_with_has_cycles. }
  rewrite (execute_uniform self'), (execute_uniform self).
  destruct (execute_run self' final_vars overrides false inputs) as [-> ->].
  destruct (execute_run self final_vars overrides false inputs) as [-> ->].
  destruct (execute_body_run self' final_vars overrides false inputs) as [-> ->].
  destruct (execute_body_run self final_vars overrides false inputs) as [-> ->].
  destruct (raw_execute_run self' final_vars overrides false inputs) as [-> ->].
  destruct (raw_execute_run self final_vars overrides false inputs) as [-> ->].
  change (get_upstream_nodes (graph self')) with (get_upstream_nodes (graph self)).
  change (graph_execute (graph self')) with (graph_execute (graph self)).
  change (adapter self') with (adapter self).
  destruct (get_upstream_nodes _ _ _) as [e|[nodes user_nodes]]; [done|].
  destruct (Hval user_nodes) as [-> ->]. done.
Qed.

(** ** The cycle check *)

Lemma existsb_elem_of {A} (f : A → bool) (l : list A) :
  existsb f l = true ↔ ∃ x, x ∈ l ∧ f x = true.
Proof.
  rewrite existsb_exists.
  split; intros (x & Hin & Hx); exists x; split; try done; by apply list_elem_of_In.
Qed.

Lemma on_cycle_unfold (fuel : nat) (nodes : list Node) (path : list string)
    (nm : string) :
  on_cycle (S fuel) nodes path nm = true ↔
  nm ∈ path ∨
  ∃ n b, n ∈ nodes ∧ name n = nm ∧ b ∈ dom (input_types n) ∧
         on_cycle fuel nodes (nm :: path) b = true.
Proof.
  cbn [on_cycle]. destruct (decide (nm ∈ path)) as [Hin|Hin]; [naive_solver|].
  rewrite existsb_elem_of. split.
  - intros (n & Hn & Hb). apply andb_true_iff in Hb as [Hnm Hb].
    apply bool_decide_eq_true in Hnm. apply existsb_elem_of in Hb as (b & Hb & Hrec).
    apply elem_of_elements in Hb. right. by exists n, b.
  - intros [?|(n & b & Hn & Hnm & Hb & Hrec)]; [done|].
    exists n. split; [done|]. apply andb_true_iff. split.
    + by apply bool_decide_eq_true.
    + apply existsb_elem_of. exists b. split; [|done]. by apply elem_of_elements.
Qed.

(** A name on a chain of dependencies reaches the end of the chain. *)
Lemma linked_tc (nodes : list Node) (path : list string) (nm x : string) :
  linked nodes path nm → x ∈ path → tc (depends_on nodes) x nm.
Proof.
  revert nm. induction path as [|p path IH]; intros nm Hl Hx.
  - by apply elem_of_nil in Hx.
  - destruct Hl as [Hstep Hl]. apply elem_of_cons in Hx as [->|Hx].
    + by apply tc_once.
    + eapply tc_r; [by apply IH|done].
Qed.

(** What the search reports lies on a cycle. *)
Lemma on_cycle_sound (nodes : list Node) (fuel : nat) (path : list string)
    (nm : string) :
  linked nodes path nm → on_cycle fuel nodes path nm = true → contains_cycle nodes.
Proof.
  revert path nm. induction fuel as [|fuel IH]; intros path nm Hl Hc; [done|].
  apply on_cycle_unfold in Hc as [Hin|(n & b & Hn & Hnm & Hb & Hrec)].
  - exists nm. by eapply linked_tc.
  - apply (IH (nm :: path) b); [|done]. split; [|done]. by exists n.
Qed.

(** A path that holds each name once, all of them names of the nodes, is
    no longer than the nodes are many. *)
Lemma path_length (nodes : list Node) (path : list string) :
  NoDup path → (∀ y, y ∈ path → y ∈ map name nodes) →
  length path ≤ length nodes.
Proof.
  intros Hnd Hsub. rewrite <-(length_map name nodes).
  apply submseteq_length, NoDup_submseteq; [done|]. intros y Hy. by apply Hsub.
Qed.

(** A name from which the path can be reached again is reported. *)
Lemma on_cycle_complete (nodes : list Node) (nm x : string) :
  rtc (depends_on nodes) nm x →
  ∀ fuel path,
    x ∈ path → NoDup path → (∀ y, y ∈ path → y ∈ map name nodes) →
    S (length nodes) ≤ fuel + length path →
    on_cycle fuel nodes path nm = true.
Proof.
  induction 1 as [x|nm y x Hstep Hrtc IH]; intros fuel path Hx Hnd Hsub Hfuel.
  - destruct fuel as [|fuel].
    { pose proof (path_length nodes path Hnd Hsub). simpl in Hfuel. lia. }
    apply on_cycle_unfold. by left.
  - destruct fuel as [|fuel].
    { pose proof (path_length nodes path Hnd Hsub). simpl in Hfuel. lia. }
    apply on_cycle_unfold.
    destruct (decide (nm ∈ path)) as [Hin|Hin]; [by left|right].
    destruct Hstep as (n & Hn & Hnm & Hb). exists n, y. repeat split; try done.
    apply IH.
    + by apply elem_of_cons; right.
    + by apply NoDup_cons.
    + intros z [->|Hz]%elem_of_cons; [|by apply Hsub].
      apply list_elem_of_fmap. by exists n.
    + simpl. lia.
Qed.

Lemma tc_first_step {A} (R : relation A) (x z : A) :
  tc R x z → ∃ y, R x y ∧ rtc R y z.
Proof.
  destruct 1 as [x z Hstep|x y z Hstep Htc].
  - by exists z.
  - exists y. split; [done|]. by apply tc_rtc.
Qed.

(** The search decides cyclicity. *)
Lemma spec_has_cycles_iff (nodes : list Node) :
  spec_has_cycles nodes = true ↔ contains_cycle nodes.
Proof.
  unfold spec_has_cycles. rewrite existsb_elem_of. split.
  - intros (n & _ & Hc). by eapply on_cycle_sound; [|exact Hc].
  - intros (a & Htc). apply tc_first_step in Htc as (y & Hstep & Hrtc).
    pose proof Hstep as (n & Hn & Hnm & Hb).
    exists n. split; [done|]. rewrite Hnm. apply on_cycle_unfold. right.
    exists n, y. repeat split; try done.
    apply (on_cycle_complete nodes y a Hrtc).
    + by apply list_elem_of_here.
    + apply NoDup_singleton.
    + intros z ->%list_elem_of_singleton. apply list_elem_of_fmap. by exists n.
    + simpl. lia.
Qed.


(** * Further properties of the driver *)

(** ** The required-by-anything test without the linking invariant *)

Lemma first_split_cons {A} (P Q : A → Prop) (x : A) (l : list A) :
  (∃ l1 y l2, x :: l = l1 ++ y :: l2 ∧ Forall P l1 ∧ Q y) ↔
  Q x ∨ (P x ∧ ∃ l1 y l2, l = l1 ++ y :: l2 ∧ Forall P l1 ∧ Q y).
Proof.
  split.
  - intros ([|x' l1] & y & l2 & Heq & HP & HQ); simplify_eq/=.
    + by left.
    + apply Forall_cons in HP as [HPx HP]. right. split; [done|].
      by exists l1, y, l2.
  - intros [HQ|[HP (l1 & y & l2 & -> & HPl & HQ)]].
    + by exists [], x, l.
    + exists (x :: l1), y, l2. split; [done|]. split; [by constructor|done].
Qed.

Lemma required_loop_cases (nm : string) (ds : list Node) :
  (required_loop nm ds = inr true ↔
     ∃ ds1 d ds2, ds = ds1 ++ d :: ds2 ∧ Forall (optional nm) ds1 ∧ requires nm d) ∧
  (required_loop nm ds = inr false ↔ Forall (optional nm) ds) ∧
  (∀ e, required_loop nm ds = inl e ↔
     e = Raise KeyError (repr_str nm) ∧
     ∃ ds1 d ds2, ds = ds1 ++ d :: ds2 ∧ Forall (optional nm) ds1 ∧
       input_types d !! nm = None).
Proof.
  induction ds as [|d ds (IHt & IHf & IHe)].
  - simpl. split; [|split].
    + split; [done|]. intros ([|??] & ? & ? & ? & _); done.
    + split; [by constructor | done].
    + intros e. split; [done|]. intros (_ & [|??] & ? & ? & ? & _); done.
  - rewrite !first_split_cons, Forall_cons.
    setoid_rewrite first_split_cons. simpl.
    destruct (input_types d !! nm) as [[t dep]|] eqn:Hd.
    + assert (requires nm d ↔ dep = REQUIRED) as ->.
      { unfold requires. rewrite Hd. split; [by intros [? [= _ ->]] | intros ->; by exists t]. }
      assert (optional nm d ↔ dep = OPTIONAL) as ->.
      { unfold optional. rewrite Hd. split; [by intros [? [= _ ->]] | intros ->; by exists t]. }
      destruct dep; simpl.
      * split; [split; [by left | done]|].
        split; [split; [done | by intros [[=] _]]|].
        intros e. split; [done|]. intros [_ [?|[[t' Ht'] _]]]; [done | congruence].
      * rewrite IHt, IHf.
        split; [split; [by right | by intros [[=]|[_ ?]]]|].
        split; [split; [done | by intros [_ ?]]|].
        intros e. rewrite IHe. split.
        -- intros [-> H]. split; [done|]. right. split; [by exists t | done].
        -- intros [-> [?|[_ H]]]; done.
    + assert (requires nm d ↔ False) as ->.
      { unfold requires. rewrite Hd. split; [by intros [? ?] | done]. }
      assert (optional nm d ↔ False) as ->.
      { unfold optional. rewrite Hd. split; [by intros [? ?] | done]. }
      split; [split; [done | by intros [?|[? _]]]|].
      split; [split; [done | by intros [? _]]|].
      intros e. split; [intros [= <-]; split; [done | by left] | by intros [-> _]].
Qed.

(** X2: whatever the dependents look like, the required-by-anything test
    goes through them in order and stops at the first one that does not
    declare the parameter OPTIONAL: it returns [True] if that dependent
    declares it REQUIRED, raises [KeyError] for the node's name if that
    dependent has no such parameter, and returns [False] exactly when every
    dependent declares it OPTIONAL. *)
Theorem node_is_required_by_anything_cases v :
  (_node_is_required_by_anything v = inr true ↔
     ∃ ds1 d ds2, depended_on_by v = ds1 ++ d :: ds2 ∧
       Forall (optional (name v)) ds1 ∧ requires (name v) d) ∧
  (_node_is_required_by_anything v = inr false ↔
     Forall (optional (name v)) (depended_on_by v)) ∧
  (∀ e, _node_is_required_by_anything v = inl e ↔
     e = Raise KeyError (repr_str (name v)) ∧
     ∃ ds1 d ds2, depended_on_by v = ds1 ++ d :: ds2 ∧
       Forall (optional (name v)) ds1 ∧ input_types d !! name v = None).
Proof. apply required_loop_cases. Qed.

(** ** The layout of the combined error *)

Lemma missing_le_mismatch v v' (value : Value) :
  String.le (missing_msg v) (mismatch_msg v' value).
Proof. unfold missing_msg, mismatch_msg. by vm_compute. Qed.

Lemma violation_split self (all_inputs : PyDict) v :
  option_list (violation self all_inputs v) =
  option_list (missing_violation all_inputs v) ++
  option_list (mismatch_violation self all_inputs v).
Proof.
  unfold violation, missing_violation, mismatch_violation.
  destruct (all_inputs !! name v) as [[|o]|]; [done|..].
  - by destruct (check_input_type _ _ _).
  - by rewrite app_nil_r.
Qed.

Lemma omap_violation_split self (all_inputs : PyDict) (user_nodes : list Node) :
  omap (violation self all_inputs) user_nodes ≡ₚ
  omap (missing_violation all_inputs) user_nodes ++
  omap (mismatch_violation self all_inputs) user_nodes.
Proof.
  induction user_nodes as [|v user_nodes IH]; [done|].
  assert (∀ {A B} (f : A → option B) x l, omap f (x :: l) = option_list (f x) ++ omap f l)
    as Hcons by (intros A B f x l; simpl; by destruct (f x)).
  rewrite !Hcons, IH, violation_split.
  rewrite <- !(assoc_L (++)). f_equiv.
  rewrite !(assoc_L (++)). f_equiv. apply Permutation_app_comm.
Qed.

(** X3: in the combined [ValueError] of [validate_inputs] the entries for
    missing required inputs all come before the entries for type
    mismatches; each group is sorted in itself. *)
Theorem missing_entries_precede_mismatches self (user_nodes : list Node)
    (inputs : option PyDict) (all_inputs : PyDict) :
  combine_config_and_inputs (config (graph self)) (default ∅ inputs) = inr all_inputs →
  Forall well_linked user_nodes →
  ∃ missing mismatches : list string,
    missing = omap (missing_violation all_inputs) user_nodes ∧
    mismatches = omap (mismatch_violation self all_inputs) user_nodes ∧
    (∀ m, m ∈ missing → ∃ v, v ∈ user_nodes ∧ all_inputs !! name v = None ∧
                              m = missing_msg v) ∧
    (∀ m, m ∈ mismatches → ∃ v o, v ∈ user_nodes ∧
                              all_inputs !! name v = Some (PyObj o) ∧
                              m = mismatch_msg v (PyObj o)) ∧
    sort (omap (violation self all_inputs) user_nodes) = sort missing ++ sort mismatches ∧
    outcome (validate_inputs self user_nodes inputs) =
      (if decide (missing ++ mismatches = []) then inr tt
       else inl (Raise ValueError (error_str (sort missing ++ sort mismatches)))).
Proof.
  intros Hc Hwl. eexists _, _. split; [reflexivity|]. split; [reflexivity|].
  set (missing := omap (missing_violation all_inputs) user_nodes).
  set (mismatches := omap (mismatch_violation self all_inputs) user_nodes).
  assert (∀ m, m ∈ missing → ∃ v, v ∈ user_nodes ∧ all_inputs !! name v = None ∧
                                   m = missing_msg v) as Hmissing.
  { intros m (v & Hin & Hv)%list_elem_of_omap. exists v. split; [done|].
    unfold missing_violation in Hv.
    destruct (all_inputs !! name v); [done|].
    destruct (existsb _ _); by simplify_eq. }
  assert (∀ m, m ∈ mismatches → ∃ v o, v ∈ user_nodes ∧
            all_inputs !! name v = Some (PyObj o) ∧ m = mismatch_msg v (PyObj o))
    as Hmismatches.
  { intros m (v & Hin & Hv)%list_elem_of_omap. exists v.
    unfold mismatch_violation in Hv.
    destruct (all_inputs !! name v) as [[|o]|]; [done| |done].
    exists o. destruct (check_input_type _ _ _); by simplify_eq. }
  split; [done|]. split; [done|].
  assert (sort (omap (violation self all_inputs) user_nodes) = sort missing ++ sort mismatches)
    as Hsort.
  { apply (Sorted_unique String.le).
    - apply sort_Sorted.
    - apply Sorted.StronglySorted_Sorted, StronglySorted_app_2.
      + intros m1 m2 Hm1 Hm2. rewrite sort_elem_of in Hm1, Hm2.
        destruct (Hmissing _ Hm1) as (v1 & _ & _ & ->).
        destruct (Hmismatches _ Hm2) as (v2 & o & _ & _ & ->).
        apply missing_le_mismatch.
      + apply Sorted_StronglySorted; [apply _ | apply sort_Sorted].
      + apply Sorted_StronglySorted; [apply _ | apply sort_Sorted].
    - rewrite !sort_Permutation. apply omap_violation_split. }
  destruct (validate_inputs_outcome _ _ _ _ Hc Hwl) as [-> _].
  pose proof (omap_violation_split self all_inputs user_nodes) as Hperm.
  fold missing mismatches in Hperm. rewrite <- Hsort.
  destruct (omap (violation self all_inputs) user_nodes) as [|m errors].
  - apply Permutation_nil_l in Hperm. by rewrite decide_True.
  - rewrite decide_False; [done|]. intros Hnil. rewrite Hnil in Hperm.
    by apply Permutation_nil_r in Hperm.
Qed.

(** ** Inputs the validation does not look at *)

Lemma validate_loop_agree self (all_inputs all_inputs' : PyDict)
    (user_nodes : list Node) errors tr :
  (∀ v, v ∈ user_nodes → all_inputs !! name v = all_inputs' !! name v) →
  validate_loop self all_inputs user_nodes errors tr =
  validate_loop self all_inputs' user_nodes errors tr.
Proof.
  revert errors tr. induction user_nodes as [|v user_nodes IH]; intros errors tr Hagree;
    [done|].
  simpl. munfold.
  assert (validate_node self all_inputs v errors tr =
          validate_node self all_inputs' v errors tr) as ->.
  { unfold validate_node. rewrite (Hagree v) by apply list_elem_of_here. done. }
  destruct (validate_node _ _ _ _ _) as [tr1 [e|errors1]]; [done|].
  apply IH. intros v' Hv'. apply Hagree. by apply list_elem_of_further.
Qed.

(** X4: [validate_inputs] reads the combined config and inputs only at the
    names of the user nodes: two calls whose combined mappings agree on
    those names run alike, so entries under any other name (inputs no node
    asks for) are never checked and never reported. *)
Theorem validate_inputs_reads_user_nodes_only self (user_nodes : list Node)
    (inputs inputs' : option PyDict) (all_inputs all_inputs' : PyDict) :
  combine_config_and_inputs (config (graph self)) (default ∅ inputs) = inr all_inputs →
  combine_config_and_inputs (config (graph self)) (default ∅ inputs') = inr all_inputs' →
  (∀ v, v ∈ user_nodes → all_inputs !! name v = all_inputs' !! name v) →
  ∀ tr, validate_inputs self user_nodes inputs tr =
        validate_inputs self user_nodes inputs' tr.
Proof.
  intros Hc Hc' Hagree tr. rewrite !validate_inputs_unfold, Hc, Hc'.
  by rewrite (validate_loop_agree _ _ _ _ _ _ Hagree).
Qed.

(** ** Rendering *)

Lemma validate_inputs_no_display self (user_nodes : list Node)
    (inputs : option PyDict) :
  filter (λ ev, is_call_graph_display ev = true)
    (events (validate_inputs self user_nodes inputs)) = [].
Proof.
  pose proof (validate_inputs_events self user_nodes inputs) as Hval.
  induction Hval as [|ev evs Hev _ IH]; [done|].
  rewrite filter_cons_False; [done|]. by destruct ev.
Qed.

Lemma visualize_execution_displays_once self (final_vars : list string)
    (path : string) (render_kwargs : gmap string bool) (inputs : option PyDict) :
  length (filter (λ ev, is_call_graph_display ev = true)
            (events (visualize_execution self final_vars path render_kwargs inputs))) ≤ 1.
Proof.
  destruct (visualize_execution_run self final_vars path render_kwargs inputs) as [-> _].
  rewrite filter_cons_False; [|by simpl].
  destruct (get_upstream_nodes _ _ _) as [e0|[nodes0 user_nodes0]]; [simpl; lia|].
  destruct (outcome (validate_inputs _ _ _)) as [e0|[]].
  { rewrite app_nil_r, validate_inputs_no_display. simpl. lia. }
  rewrite filter_app, validate_inputs_no_display. simpl.
  destruct (graph_display _ _ _ _ _) as [e0|[]]; [|simpl; lia].
  destruct (isinstance_ImportError e0); simpl; lia.
Qed.

(** X5: [visualize_execution] only looks at the graph: its run holds
    nothing but the closure computation, the validation's adapter calls,
    at most one rendering call and a warning; the graph is rendered only
    after validation passed; an [ImportError] of the rendering ends the
    call normally with a warning as its last record, and every other
    exception that ends the call is the one a step raised. *)
Theorem visualize_execution_only_looks self (final_vars : list string)
    (path : string) (render_kwargs : gmap string bool) (inputs : option PyDict) :
  let run := visualize_execution self final_vars path render_kwargs inputs in
  length (filter (λ ev, is_call_graph_display ev = true) (events run)) ≤ 1 ∧
  Forall (λ ev, is_view_event ev = true) (events run) ∧
  (∀ nodes user_nodes p k,
     call_graph_display nodes user_nodes p k ∈ events run →
     get_upstream_nodes (graph self) final_vars inputs = inr (nodes, user_nodes) ∧
     outcome (validate_inputs self user_nodes inputs) = inr tt ∧
     p = path ∧ k = render_kwargs) ∧
  (∀ e, outcome run = inl e →
     get_upstream_nodes (graph self) final_vars inputs = inl e ∨
     ∃ nodes user_nodes,
       get_upstream_nodes (graph self) final_vars inputs = inr (nodes, user_nodes) ∧
       (outcome (validate_inputs self user_nodes inputs) = inl e ∨
        (graph_display (graph self) nodes user_nodes path render_kwargs = inl e ∧
         isinstance_ImportError e = false))) ∧
  (∀ nodes user_nodes e,
     get_upstream_nodes (graph self) final_vars inputs = inr (nodes, user_nodes) →
     outcome (validate_inputs self user_nodes inputs) = inr tt →
     graph_display (graph self) nodes user_nodes path render_kwargs = inl e →
     isinstance_ImportError e = true →
     outcome run = inr tt ∧
     last (events run) = Some (logger_warning ("Unable to import " ++ exc_str e))).
Proof.
  intros run. subst run.
  split; [apply visualize_execution_displays_once|].
  destruct (visualize_execution_run self final_vars path render_kwargs inputs) as [Hev Hout].
  rewrite Hev, Hout. clear Hev Hout.
  destruct (get_upstream_nodes _ _ _) as [e0|[nodes0 user_nodes0]] eqn:Hup.
  { split; [by repeat constructor|]. split.
    { intros ???? Hin. apply list_elem_of_singleton in Hin. done. }
    split; [intros e [= <-]; by left | done]. }
  pose proof (validate_inputs_events self user_nodes0 inputs) as Hval.
  assert (∀ nodes user_nodes p k,
    call_graph_display nodes user_nodes p k ∉
      events (validate_inputs self user_nodes0 inputs)) as Hnot.
  { intros ???? Hin. rewrite Forall_forall in Hval. by apply Hval in Hin. }
  destruct (outcome (validate_inputs _ _ _)) as [e0|[]] eqn:Hvo.
  { rewrite app_nil_r. split.
    { apply Forall_cons. split; [done|]. eapply Forall_impl; [exact Hval|]. by intros [] ?. }
    split.
    { intros ???? [Hin|Hin]%elem_of_cons; [done|]. by apply Hnot in Hin. }
    split; [|intros nodes user_nodes e [= <- <-] Hv; congruence].
    intros e [= <-]. right. exists nodes0, user_nodes0. split; [done|]. by left. }
  split.
  { apply Forall_cons. split; [done|]. apply Forall_app. split.
    { eapply Forall_impl; [exact Hval|]. by intros [] ?. }
    apply Forall_cons. split; [done|].
    destruct (graph_display _ _ _ _ _) as [e0|[]]; [|by constructor].
    destruct (isinstance_ImportError e0); by repeat constructor. }
  split.
  { intros nodes user_nodes p k [Hin|Hin]%elem_of_cons; [done|].
    apply elem_of_app in Hin as [Hin|Hin]; [by apply Hnot in Hin|].
    apply elem_of_cons in Hin as [[= -> -> -> ->]|Hin]; [done|].
    destruct (graph_display _ _ _ _ _) as [e0|[]]; [|by apply elem_of_nil in Hin].
    destruct (isinstance_ImportError e0); [|by apply elem_of_nil in Hin].
    by apply list_elem_of_singleton in Hin. }
  split.
  { intros e He. right. exists nodes0, user_nodes0. split; [done|]. right.
    destruct (graph_display _ _ _ _ _) as [e0|[]]; [|done].
    destruct (isinstance_ImportError e0) eqn:Himp; [done|]. by injection He as ->. }
  intros nodes user_nodes e [= <- <-] _ Hdisp Himp. rewrite Hdisp, Himp.
  split; [done|].
  replace (call_get_upstream_nodes final_vars inputs ::
           events (validate_inputs self user_nodes0 inputs) ++
           [call_graph_display nodes0 user_nodes0 path render_kwargs;
            logger_warning ("Unable to import " ++ exc_str e)])
    with ((call_get_upstream_nodes final_vars inputs ::
           events (validate_inputs self user_nodes0 inputs) ++
           [call_graph_display nodes0 user_nodes0 path render_kwargs]) ++
          [logger_warning ("Unable to import " ++ exc_str e)])
    by (simpl; by rewrite <- (assoc_L (++))).
  apply last_snoc.
Qed.

(** X6: [display_all_functions] never ends with an [ImportError] (or a
    subclass): it logs it as a warning and returns; any other exception of
    the rendering leaves the call as it is, without a log record; a
    rendering that returns logs nothing. *)
Theorem display_all_functions_swallows_import_error
    (graph_views : FunctionGraphViews) (path : string)
    (render_kwargs : option (gmap string bool)) :
  let run := display_all_functions graph_views path render_kwargs in
  (∀ e, outcome run = inl e →
     isinstance_ImportError e = false ∧
     graph_display_all graph_views path render_kwargs = inl e ∧
     events run = []) ∧
  (∀ e, graph_display_all graph_views path render_kwargs = inl e →
     isinstance_ImportError e = true →
     outcome run = inr tt ∧
     events run = [logger_warning ("Unable to import " ++ exc_str e)]) ∧
  (∀ e, graph_display_all graph_views path render_kwargs = inl e →
     isinstance_ImportError e = false →
     outcome run = inl e ∧ events run = []) ∧
  (graph_display_all graph_views path render_kwargs = inr tt →
     outcome run = inr tt ∧ events run = []).
Proof.
  intros run. subst run.
  unfold display_all_functions, events, outcome, try_except, lift, emit. simpl.
  destruct (graph_display_all _ _ _) as [e0|[]].
  - destruct (isinstance_ImportError e0) eqn:Himp; simpl.
    + split; [done|]. split; [by intros e [= <-] _|]. split; [|done].
      intros e [= <-] ?. congruence.
    + split; [by intros e [= <-]|]. split; [|split; [by intros e [= <-] _ | done]].
      intros e [= <-] ?. congruence.
  - split; [done|]. by repeat split.
Qed.

(** ** The listing of variables *)

(** X7: when the node names of the graph are distinct,
    [list_available_variables] lists every node exactly once, with its
    name and declared type: the listed names are distinct, so a name
    identifies one listed variable and one type. *)
Theorem list_available_variables_unique (graph_views : FunctionGraphViews) :
  NoDup (map name (get_nodes graph_views)) →
  NoDup (map variable_name (list_available_variables graph_views)) ∧
  NoDup (list_available_variables graph_views) ∧
  length (list_available_variables graph_views) = length (get_nodes graph_views) ∧
  (∀ x, x ∈ list_available_variables graph_views ↔
        ∃ node, node ∈ get_nodes graph_views ∧
                x = mkVariable (name node) (type node)) ∧
  (∀ x y, x ∈ list_available_variables graph_views →
          y ∈ list_available_variables graph_views →
          variable_name x = variable_name y → variable_type x = variable_type y).
Proof.
  intros Hnd. unfold list_available_variables.
  assert (map variable_name
            (map (λ node, mkVariable (name node) (type node)) (get_nodes graph_views)) =
          map name (get_nodes graph_views)) as Hnames.
  { rewrite map_map. by apply map_ext. }
  assert (NoDup (map (λ node, mkVariable (name node) (type node)) (get_nodes graph_views)))
    as Hnd'.
  { apply (NoDup_fmap_1 variable_name).
    change (NoDup (map variable_name
              (map (λ node, mkVariable (name node) (type node)) (get_nodes graph_views)))).
    by rewrite Hnames. }
  split; [by rewrite Hnames|]. split; [done|]. split; [apply length_map|].
  assert (∀ x, x ∈ map (λ node, mkVariable (name node) (type node)) (get_nodes graph_views) ↔
               ∃ node, node ∈ get_nodes graph_views ∧
                       x = mkVariable (name node) (type node)) as Hin.
  { intros x. split.
    - intros (node & -> & Hnode)%list_elem_of_fmap. by exists node.
    - intros (node & Hnode & ->). apply list_elem_of_fmap. by exists node. }
  split; [done|].
  intros x y Hx Hy Heq.
  assert (x = y) as ->; [|done].
  assert (NoDup (variable_name <$>
            map (λ node, mkVariable (name node) (type node)) (get_nodes graph_views)))
    as HndN.
  { change (NoDup (map variable_name
              (map (λ node, mkVariable (name node) (type node)) (get_nodes graph_views)))).
    by rewrite Hnames. }
  apply list_elem_of_lookup in Hx as [i Hi].
  apply list_elem_of_lookup in Hy as [j Hj].
  assert (i = j) as ->; [|congruence].
  apply (NoDup_lookup _ i j (variable_name x) HndN).
  - by rewrite list_lookup_fmap, Hi.
  - by rewrite list_lookup_fmap, Hj, Heq.
Qed.

(** ** The outputs of a call *)

Lemma outputs_comprehension_keys (memo : PyDict) (final_vars : list string)
    (acc outputs : list (string * Value)) :
  outputs_comprehension memo final_vars acc = inr outputs →
  outputs.*1 = foldl add_key acc.*1 final_vars.
Proof.
  revert acc. induction final_vars as [|c final_vars IH]; intros acc; simpl.
  - by intros [= ->].
  - destruct (memo !! c) as [x|]; [|done].
    intros ->%IH. by rewrite pydict_set_keys.
Qed.

Lemma elem_of_first_occurrences (c : string) (l : list string) :
  c ∈ first_occurrences l ↔ c ∈ l.
Proof.
  unfold first_occurrences.
  by rewrite elem_of_reverse, elem_of_remove_dups, elem_of_reverse.
Qed.

Lemma first_occurrences_snoc (l : list string) (c : string) :
  first_occurrences (l ++ [c]) =
    if decide (c ∈ l) then first_occurrences l else first_occurrences l ++ [c].
Proof.
  unfold first_occurrences. rewrite reverse_app.
  change (reverse [c] ++ reverse l) with (c :: reverse l).
  cbn [remove_dups].
  destruct (decide_rel elem_of c (reverse l)) as [Hin|Hnin].
  - rewrite decide_True; [done|]. by apply elem_of_reverse.
  - rewrite decide_False; [by rewrite reverse_cons|].
    intros Hin. by apply Hnin, elem_of_reverse.
Qed.

Lemma foldl_add_key (l : list string) :
  foldl add_key [] l = first_occurrences l.
Proof.
  induction l as [|c l IH] using rev_ind; [done|].
  rewrite foldl_app. simpl. rewrite IH, first_occurrences_snoc. unfold add_key.
  destruct (decide (c ∈ l)) as [Hin|Hnin].
  - rewrite decide_True; [done|]. by apply elem_of_first_occurrences.
  - rewrite decide_False; [done|]. by rewrite elem_of_first_occurrences.
Qed.

Lemma outputs_comprehension_missing (memo : PyDict) (l1 l2 : list string)
    (c : string) (acc : list (string * Value)) :
  (∀ c', c' ∈ l1 → is_Some (memo !! c')) →
  memo !! c = None →
  outputs_comprehension memo (l1 ++ c :: l2) acc = inl (Raise KeyError (repr_str c)).
Proof.
  revert acc. induction l1 as [|c1 l1 IH]; intros acc Hl1 Hc; simpl.
  - by rewrite Hc.
  - destruct (Hl1 c1) as [x ->]; [apply list_elem_of_here|].
    apply IH; [|done]. intros c' Hc'. apply Hl1. by apply list_elem_of_further.
Qed.

Lemma raw_execute_builds_nothing self (final_vars : list string)
    (overrides : option PyDict) (display_graph : bool) (inputs : option PyDict) :
  Forall (λ ev, is_logger_error ev = false ∧ is_call_build_result ev = false)
    (events (raw_execute self final_vars overrides display_graph inputs)).
Proof.
  destruct (raw_execute_events_shape self final_vars overrides display_graph inputs)
    as (evs & tail & -> & Hevs & Htail).
  apply Forall_app. split.
  - eapply Forall_impl; [exact Hevs|]. by intros [] ?.
  - destruct Htail as [->|(nodes & user_nodes & -> & _)]; by repeat constructor.
Qed.

(** X8: the dict [raw_execute] returns, and the dict [execute] hands to
    the adapter's [build_result], hold the requested names in the order of
    their first occurrence in [final_vars]; a name requested twice appears
    once. *)
Theorem outputs_in_request_order self (final_vars : list string)
    (overrides : option PyDict) (display_graph : bool) (inputs : option PyDict) :
  (∀ outputs,
     outcome (raw_execute self final_vars overrides display_graph inputs) = inr outputs →
     outputs.*1 = first_occurrences final_vars) ∧
  (∀ outputs,
     call_build_result outputs ∈
       events (execute self final_vars overrides display_graph inputs) →
     outputs.*1 = first_occurrences final_vars).
Proof.
  assert (∀ outputs,
     outcome (raw_execute self final_vars overrides display_graph inputs) = inr outputs →
     outputs.*1 = first_occurrences final_vars) as Hraw.
  { intros outputs Hres.
    destruct (raw_execute_run self final_vars overrides display_graph inputs) as [_ Hrout].
    rewrite Hrout in Hres.
    destruct (get_upstream_nodes _ _ _) as [e|[nodes user_nodes]]; [done|].
    destruct (outcome (validate_inputs _ _ _)) as [e|[]]; [done|].
    destruct (outcome (deprecated_flow _ _ _)) as [e|[]]; [done|].
    destruct (graph_execute _ _ _ _ _) as [e|memo]; [done|].
    by rewrite (outputs_comprehension_keys _ _ _ _ Hres), fmap_nil, foldl_add_key. }
  split; [done|].
  intros outputs Hin.
  destruct (execute_run self final_vars overrides display_graph inputs) as [Hev _].
  destruct (execute_body_run self final_vars overrides display_graph inputs) as [Hbev Hbout].
  pose proof (raw_execute_builds_nothing self final_vars overrides display_graph inputs)
    as Hquiet.
  rewrite Hev, Hbev, !elem_of_app in Hin.
  destruct Hin as [Hin|[[Hin|Hin]|Hin]].
  - destruct display_graph; [|by apply elem_of_nil in Hin].
    by apply list_elem_of_singleton in Hin.
  - rewrite Forall_forall in Hquiet. by destruct (Hquiet _ Hin).
  - destruct (outcome (raw_execute _ _ _ _ _)) as [e|outputs'] eqn:Hres;
      [by apply elem_of_nil in Hin|].
    apply list_elem_of_singleton in Hin. injection Hin as ->. by apply Hraw.
  - destruct (outcome (execute_body _ _ _ _ _)) as [e|r]; [|by apply elem_of_nil in Hin].
    destruct (isinstance_Exception e); [|by apply elem_of_nil in Hin].
    by apply list_elem_of_singleton in Hin.
Qed.

(** X9: when the graph has been executed and the memo lacks a requested
    name, [execute] raises [KeyError] for the first such name in
    [final_vars]; the adapter's [build_result] is not called and the error
    is logged. *)
Theorem missing_output_raises_KeyError self (l1 l2 : list string) (c : string)
    (overrides : option PyDict) (display_graph : bool) (inputs : option PyDict)
    (nodes user_nodes : list Node) (memo : PyDict) :
  get_upstream_nodes (graph self) (l1 ++ c :: l2) inputs = inr (nodes, user_nodes) →
  outcome (validate_inputs self user_nodes inputs) = inr tt →
  outcome (deprecated_flow self (l1 ++ c :: l2) display_graph) = inr tt →
  graph_execute (graph self) nodes ∅ overrides inputs = inr memo →
  (∀ c', c' ∈ l1 → is_Some (memo !! c')) →
  memo !! c = None →
  outcome (raw_execute self (l1 ++ c :: l2) overrides display_graph inputs) =
    inl (Raise KeyError (repr_str c)) ∧
  outcome (execute self (l1 ++ c :: l2) overrides display_graph inputs) =
    inl (Raise KeyError (repr_str c)) ∧
  Forall (λ ev, is_call_build_result ev = false)
    (events (execute self (l1 ++ c :: l2) overrides display_graph inputs)) ∧
  last (events (execute self (l1 ++ c :: l2) overrides display_graph inputs)) =
    Some (logger_error DISCORD_ERROR_MESSAGE).
Proof.
  intros Hup Hval Hflow Hexec Hl1 Hc.
  set (final_vars := l1 ++ c :: l2) in *.
  destruct (execute_run self final_vars overrides display_graph inputs) as [Hev Hout].
  destruct (execute_body_run self final_vars overrides display_graph inputs) as [Hbev Hbout].
  destruct (raw_execute_run self final_vars overrides display_graph inputs) as [_ Hrout].
  pose proof (raw_execute_builds_nothing self final_vars overrides display_graph inputs)
    as Hquiet.
  rewrite Hup, Hval, Hflow, Hexec in Hrout.
  unfold final_vars in Hrout at 2.
  rewrite (outputs_comprehension_missing _ _ _ _ _ Hl1 Hc) in Hrout.
  rewrite Hrout in Hbev, Hbout. rewrite Hbout in Hev. simpl in Hev.
  rewrite app_nil_r in Hbev. rewrite Hbev in Hev.
  split; [done|]. split; [by rewrite Hout, Hbout|]. rewrite Hev. split.
  - apply Forall_app. split; [destruct display_graph; by repeat constructor|].
    apply Forall_app. split; [|by repeat constructor].
    eapply Forall_impl; [exact Hquiet|]. by intros ev [_ ?].
  - by rewrite !(assoc_L (++)), last_snoc.
Qed.

(** X10: with the deprecated [display_graph] on, [execute] validates a
    second time, inside [visualize_execution], without the runtime inputs
    of the call: if that second validation fails, the call ends with its
    error although the validation with the inputs passed, and neither
    renders nor executes the graph. *)
Theorem display_graph_revalidates_without_inputs self (final_vars : list string)
    (overrides inputs : option PyDict) (nodes user_nodes nodes0 user_nodes0 : list Node)
    e :
  get_upstream_nodes (graph self) final_vars inputs = inr (nodes, user_nodes) →
  outcome (validate_inputs self user_nodes inputs) = inr tt →
  get_upstream_nodes (graph self) final_vars None = inr (nodes0, user_nodes0) →
  outcome (validate_inputs self user_nodes0 None) = inl e →
  outcome (execute self final_vars overrides true inputs) = inl e ∧
  events (execute self final_vars overrides true inputs) =
    [logger_warning deprecation_warning; call_get_upstream_nodes final_vars inputs] ++
    events (validate_inputs self user_nodes inputs) ++
    [logger_warning deprecation_warning; call_get_upstream_nodes final_vars None] ++
    events (validate_inputs self user_nodes0 None) ++
    (if isinstance_Exception e then [logger_error DISCORD_ERROR_MESSAGE] else []).
Proof.
  intros Hup Hval Hup0 Hval0.
  destruct (execute_run self final_vars overrides true inputs) as [Hev Hout].
  destruct (execute_body_run self final_vars overrides true inputs) as [Hbev Hbout].
  destruct (raw_execute_run self final_vars overrides true inputs) as [Hrev Hrout].
  destruct (deprecated_flow_run self final_vars) as [Hfev Hfout].
  destruct (visualize_execution_run self final_vars "test-output/execute.gv"
              {[ "view" := true ]} None) as [Hvev Hvout].
  rewrite Hup0, Hval0 in Hvev, Hvout. rewrite app_nil_r in Hvev.
  rewrite Hvout in Hfev, Hfout. rewrite Hvev, app_nil_r in Hfev.
  rewrite Hup, Hval, Hfout in Hrev, Hrout. rewrite Hfev, app_nil_r in Hrev.
  rewrite Hrout in Hbev, Hbout. rewrite Hrev, app_nil_r in Hbev.
  rewrite Hbout in Hev. rewrite Hbev in Hev.
  split; [by rewrite Hout, Hbout|]. rewrite Hev. simpl.
  by rewrite <- !(assoc_L (++)).
Qed.

(** X11: [raw_execute] itself logs no error and builds no result: these
    are left to its caller.  [execute] ends as [raw_execute] does when that
    raises, and with what the adapter's [build_result] makes of the
    returned dict otherwise. *)
Theorem raw_execute_leaves_logging_to_caller self (final_vars : list string)
    (overrides : option PyDict) (display_graph : bool) (inputs : option PyDict) :
  Forall (λ ev, is_logger_error ev = false ∧ is_call_build_result ev = false)
    (events (raw_execute self final_vars overrides display_graph inputs)) ∧
  outcome (execute self final_vars overrides display_graph inputs) =
    match outcome (raw_execute self final_vars overrides display_graph inputs) with
    | inl e => inl e
    | inr outputs => build_result (adapter self) outputs
    end.
Proof.
  split; [apply raw_execute_builds_nothing|].
  destruct (execute_run self final_vars overrides display_graph inputs) as [_ ->].
  by destruct (execute_body_run self final_vars overrides display_graph inputs) as [_ ->].
Qed.

(** ** Construction *)

(** X12: a driver that [__init__] returns holds the graph the graph
    constructor returned and the very adapter that constructor was given:
    the caller's adapter, or the default one when the caller gave none.
    A construction that succeeds logs nothing. *)
Theorem init_keeps_graph_and_adapter (cfg : PyDict) (modules : list PyModule)
    (adapter0 : option HamiltonGraphAdapter) (d : Driver) :
  outcome (__init__ cfg modules adapter0) = inr d →
  adapter d = default SimplePythonDataFrameGraphAdapter adapter0 ∧
  FunctionGraph_init modules cfg (adapter d) = inr (graph d) ∧
  events (__init__ cfg modules adapter0) = [call_FunctionGraph modules cfg].
Proof.
  intros Hd. destruct (__init___run cfg modules adapter0) as [Hev Hout].
  rewrite Hev. rewrite Hout in Hd.
  destruct (FunctionGraph_init _ _ _) as [e|g] eqn:Hg; [done|].
  injection Hd as <-. by simpl.
Qed.

(** X13: an exception that is not an instance of [Exception]
    ([SystemExit], [KeyboardInterrupt]) leaves [__init__] and [execute]
    without any error record. *)
Theorem base_exceptions_pass_unlogged (cfg : PyDict) (modules : list PyModule)
    (adapter0 : option HamiltonGraphAdapter) self (final_vars : list string)
    (overrides : option PyDict) (display_graph : bool) (inputs : option PyDict) e :
  isinstance_Exception e = false →
  (outcome (__init__ cfg modules adapter0) = inl e →
   events (__init__ cfg modules adapter0) = [call_FunctionGraph modules cfg]) ∧
  (outcome (execute self final_vars overrides display_graph inputs) = inl e →
   Forall (λ ev, is_logger_error ev = false)
     (events (execute self final_vars overrides display_graph inputs))).
Proof.
  intros Hexc. split.
  - intros He. destruct (__init___run cfg modules adapter0) as [Hev Hout].
    rewrite Hev. rewrite Hout in He.
    destruct (FunctionGraph_init _ _ _) as [e'|g]; [|done].
    injection He as ->. by rewrite Hexc.
  - intros He.
    destruct (execute_run self final_vars overrides display_graph inputs) as [Hev Hout].
    destruct (execute_body_run self final_vars overrides display_graph inputs) as [Hbev Hbout].
    rewrite Hev. rewrite Hout in He. rewrite He, Hexc, app_nil_r, Hbev.
    apply Forall_app. split; [destruct display_graph; by repeat constructor|].
    apply Forall_app. split.
    + eapply Forall_impl; [apply raw_execute_builds_nothing|]. by intros ev [? _].
    + destruct (outcome (raw_execute _ _ _ _ _)); by repeat constructor.
Qed.

End Properties.

(** * The properties at concrete requests *)

Import Example.

Example required_by_total : _node_is_required_by_anything n_price = inr true.
Proof. reflexivity. Qed.

Example tax_is_optional : _node_is_required_by_anything n_tax = inr false.
Proof. reflexivity. Qed.

Example unlinked_dependent_raises :
  _node_is_required_by_anything (mkNode "tax" t_int ∅ [n_label; n_price]) =
    inl (Raise KeyError "'tax'").
Proof. reflexivity. Qed.

Example missing_optional_input_passes :
  validate_inputs drv [n_tax] None [] = ([], inr tt).
Proof. reflexivity. Qed.

(** The entry for a missing input lists all its dependents, the one that
    takes it with a default too. *)
Example missing_input_lists_every_dependent :
  outcome (validate_inputs drv [n_rate] None) =
    inl (Raise ValueError
      ("1 errors encountered:" ++ nl ++
       "  Error: Required input rate not provided for nodes: ['gross', 'note'].")).
Proof. reflexivity. Qed.

Example acyclic_closure : spec_has_cycles ex_nodes = false.
Proof. reflexivity. Qed.

Example cyclic_closure : spec_has_cycles [n_p; n_q] = true.
Proof. reflexivity. Qed.

Example clash_is_rejected :
  combine_config_and_inputs (config (graph drv_priced))
    {[ "tax" := PyObj (o_int 1); "price" := PyObj (o_int 4) ]} =
  inl (Raise ValueError "config and inputs overlap").
Proof. reflexivity. Qed.

Lemma node_is_required_by_anything_witness :
  ∃ b : bool,
    _node_is_required_by_anything n_price = inr b ∧
    (b = true ↔ Exists (requires (name n_price)) (depended_on_by n_price)) ∧
    (depended_on_by n_price = [] → b = false) ∧
    (Forall (optional (name n_price)) (depended_on_by n_price) → b = false).
Proof.
  apply (node_is_required_by_anything_iff n_price).
  repeat constructor. by eexists.
Defined.

Lemma validate_inputs_collects_all_witness :
  outcome (validate_inputs drv [n_tax; n_price] (Some {[ "tax" := PyObj (o_str "a") ]})) =
    inl (Raise ValueError
      ("2 errors encountered:" ++ nl ++
       "  Error: Required input price not provided for nodes: ['total']." ++ nl ++
       "  Error: Type requirement mismatch. Expected tax:<class 'int'> got a instead.")).
Proof.
  destruct (validate_inputs_collects_all drv [n_tax; n_price]
              (Some {[ "tax" := PyObj (o_str "a") ]}) {[ "tax" := PyObj (o_str "a") ]})
    as (errors & -> & _ & _ & _ & -> & _).
  - reflexivity.
  - repeat constructor; by eexists.
  - reflexivity.
Defined.

Lemma missing_input_error_witness :
  ∃ msg, outcome (validate_inputs drv [n_price; n_tax] None) = inl (Raise ValueError msg) ∧
    occurs "price" msg ∧ occurs "'total'" msg.
Proof.
  destruct (missing_input_error_iff_required drv [n_price; n_tax] None ∅ n_price)
    as [Hreq _].
  - reflexivity.
  - repeat constructor; by eexists.
  - apply list_elem_of_here.
  - reflexivity.
  - destruct Hreq as (msg & Hout & _ & Hname & Hdeps).
    + apply Exists_cons_hd. by exists t_int.
    + exists msg. split; [done|]. split; [done|].
      apply (Hdeps n_total); [apply list_elem_of_here | by exists t_int].
Defined.

Lemma type_mismatch_None_counterexample :
  combine_config_and_inputs (config (graph drv)) {[ "price" := PyNone ]} =
    inr {[ "price" := PyNone ]} ∧
  n_price ∈ [n_price] ∧
  ({[ "price" := PyNone ]} : PyDict) !! name n_price = Some PyNone ∧
  check_input_type (adapter drv) (type n_price) PyNone = false ∧
  validate_inputs drv [n_price] (Some {[ "price" := PyNone ]}) [] = ([], inr tt).
Proof.
  split; [reflexivity|]. split; [apply list_elem_of_here|].
  split; [reflexivity|]. split; [reflexivity|]. reflexivity.
Qed.

Lemma type_mismatch_error_witness :
  ∃ msg,
    outcome (validate_inputs drv [n_price] (Some {[ "price" := PyObj (o_str "a") ]})) =
      inl (Raise ValueError msg) ∧
    occurs "<class 'int'>" msg ∧ occurs "a" msg.
Proof.
  destruct (type_mismatch_error drv [n_price] (Some {[ "price" := PyObj (o_str "a") ]})
              {[ "price" := PyObj (o_str "a") ]} n_price (o_str "a"))
    as (msg & Hout & _ & Hty & Hval & _).
  - reflexivity.
  - repeat constructor; by eexists.
  - apply list_elem_of_here.
  - reflexivity.
  - reflexivity.
  - by exists msg.
Defined.

Lemma none_bypasses_type_check_witness :
  events (validate_inputs drv [n_price] (Some {[ "price" := PyNone ]})) = [] ∧
  outcome (validate_inputs drv [n_price] (Some {[ "price" := PyNone ]})) = inr tt.
Proof.
  destruct (none_bypasses_type_check drv (Some {[ "price" := PyNone ]})
              {[ "price" := PyNone ]} n_price)
    as (_ & Hev & Hout & _).
  - reflexivity.
  - reflexivity.
  - by split.
Defined.

Lemma execute_returns_requested_outputs_witness :
  ∃ outputs : list (string * Value),
    build_result (adapter drv) outputs =
      inr [("total", PyObj (o_int 12)); ("label", PyObj (o_str "x"))] ∧
    NoDup outputs.*1 ∧
    ∀ c, c ∈ outputs.*1 ↔ c ∈ ["total"; "label"; "total"].
Proof.
  destruct (execute_returns_requested_outputs drv ["total"; "label"; "total"] None false
              (Some {[ "price" := PyObj (o_int 3) ]})
              [("total", PyObj (o_int 12)); ("label", PyObj (o_str "x"))])
    as (nodes & user_nodes & memo & outputs & _ & _ & _ & _ & Hnd & Hkeys & _ & Hres & _).
  - reflexivity.
  - by exists outputs.
Defined.

Lemma validation_precedes_computation_witness :
  outcome (execute drv ["total"] None false None) =
    inl (Raise ValueError
      ("1 errors encountered:" ++ nl ++
       "  Error: Required input price not provided for nodes: ['total'].")) ∧
  Forall quiet (events (execute drv ["total"] None false None)).
Proof.
  destruct (validation_precedes_computation drv ["total"] None false None) as [Hfail _].
  destruct (Hfail ex_nodes ex_user_nodes
              (Raise ValueError
                 ("1 errors encountered:" ++ nl ++
                  "  Error: Required input price not provided for nodes: ['total'].")))
    as (_ & Hout & _ & Hquiet).
  - reflexivity.
  - reflexivity.
  - by split.
Defined.

Lemma config_inputs_clash_rejected_witness :
  validate_inputs drv_priced [n_price; n_tax] (Some {[ "price" := PyObj (o_int 4) ]}) [] =
    ([], inl (Raise ValueError "config and inputs overlap")).
Proof.
  destruct (config_inputs_clash_rejected drv_priced
              {[ "price" := PyObj (o_int 4) ]} "price" ["total"] None false)
    as (_ & Hval & _).
  - by eexists.
  - by eexists.
  - apply Hval.
Defined.

Lemma import_error_swallowed_counterexample :
  graph_display (graph drv_no_graphviz) ex_nodes ex_user_nodes
    "test-output/execute.gv" {[ "view" := true ]} =
    inl (Raise ImportError "No module named 'graphviz'") ∧
  outcome (execute drv_no_graphviz ["total"] None true None) =
    inr [("total", PyObj (o_int 12))] ∧
  events (execute drv_no_graphviz ["total"] None true None) =
    [ logger_warning deprecation_warning;
      call_get_upstream_nodes ["total"] None;
      call_check_input_type t_int (PyObj (o_int 3));
      logger_warning deprecation_warning;
      call_get_upstream_nodes ["total"] None;
      call_check_input_type t_int (PyObj (o_int 3));
      call_graph_display ex_nodes ex_user_nodes "test-output/execute.gv"
        {[ "view" := true ]};
      logger_warning "Unable to import No module named 'graphviz'";
      call_get_upstream_nodes ["total"] None;
      call_graph_has_cycles ex_nodes ex_user_nodes;
      call_graph_execute ex_nodes ∅ None None;
      call_build_result [("total", PyObj (o_int 12))] ].
Proof.
  repeat split; reflexivity.
Qed.

Lemma exceptions_propagate_after_logging_witness :
  outcome (__init__ ∅ [] None) = inl (Raise ValueError "no modules") ∧
  events (__init__ ∅ [] None) =
    [call_FunctionGraph [] ∅; logger_error DISCORD_ERROR_MESSAGE].
Proof.
  destruct (exceptions_propagate_after_logging ∅ [] None drv ["total"] None false None)
    as (Hout & Hlog & _).
  split; [by rewrite Hout|].
  apply (Hlog (Raise ValueError "no modules")); [by rewrite Hout | reflexivity].
Defined.



Example cyclic_graph_without_display :
  outcome (execute drv_cyclic ["p"] None false None) =
    inl (Raise RecursionError "maximum recursion depth exceeded").
Proof. reflexivity. Qed.

(** ** The further properties at concrete requests *)

Example optional_dependent_before_unlinked_one :
  _node_is_required_by_anything (mkNode "tax" t_int ∅ [n_total; n_price]) =
    inl (Raise KeyError "'tax'").
Proof. reflexivity. Qed.

Example requiring_dependent_before_unlinked_one :
  _node_is_required_by_anything (mkNode "price" t_int ∅ [n_total; n_label]) = inr true.
Proof. reflexivity. Qed.

Lemma validate_inputs_order_witness :
  outcome (validate_inputs drv [n_tax; n_price] (Some {[ "tax" := PyObj (o_str "a") ]})) =
  outcome (validate_inputs drv [n_price; n_tax] (Some {[ "tax" := PyObj (o_str "a") ]})).
Proof.
  apply (validate_inputs_order drv [n_tax; n_price] [n_price; n_tax]
           (Some {[ "tax" := PyObj (o_str "a") ]}) {[ "tax" := PyObj (o_str "a") ]}).
  - reflexivity.
  - repeat constructor; by eexists.
  - apply perm_swap.
Defined.

Lemma missing_entries_precede_mismatches_witness :
  outcome (validate_inputs drv [n_tax; n_price] (Some {[ "tax" := PyObj (o_str "a") ]})) =
    inl (Raise ValueError
      (error_str [missing_msg n_price; mismatch_msg n_tax (PyObj (o_str "a"))])).
Proof.
  destruct (missing_entries_precede_mismatches drv [n_tax; n_price]
              (Some {[ "tax" := PyObj (o_str "a") ]}) {[ "tax" := PyObj (o_str "a") ]})
    as (missing & mismatches & -> & -> & _ & _ & _ & ->).
  - reflexivity.
  - repeat constructor; by eexists.
  - reflexivity.
Defined.

Lemma validate_inputs_reads_user_nodes_only_witness :
  validate_inputs drv [n_price; n_tax] (Some {[ "price" := PyObj (o_int 3) ]}) [] =
  validate_inputs drv [n_price; n_tax]
    (Some {[ "price" := PyObj (o_int 3); "unused" := PyObj (o_str "zzz") ]}) [].
Proof.
  apply (validate_inputs_reads_user_nodes_only drv [n_price; n_tax]
           (Some {[ "price" := PyObj (o_int 3) ]})
           (Some {[ "price" := PyObj (o_int 3); "unused" := PyObj (o_str "zzz") ]})
           {[ "price" := PyObj (o_int 3) ]}
           {[ "price" := PyObj (o_int 3); "unused" := PyObj (o_str "zzz") ]}).
  - reflexivity.
  - reflexivity.
  - intros v Hv. apply elem_of_cons in Hv as [->|Hv]; [reflexivity|].
    apply list_elem_of_singleton in Hv as ->. reflexivity.
Defined.

Example import_error_of_display_all_is_a_warning :
  display_all_functions (ex_views (Some (Raise ModuleNotFoundError "No module named 'graphviz'")))
    "graph-all.dot" None [] =
  ([logger_warning "Unable to import No module named 'graphviz'"], inr tt).
Proof. reflexivity. Qed.

Lemma list_available_variables_unique_witness :
  NoDup (map variable_name (list_available_variables (ex_views None))) ∧
  list_available_variables (ex_views None) =
    [mkVariable "price" t_int; mkVariable "tax" t_int;
     mkVariable "total" t_int; mkVariable "label" t_str].
Proof.
  destruct (list_available_variables_unique (ex_views None)) as (Hnames & _).
  - compute_done.
  - split; [done | reflexivity].
Defined.

Example outputs_keep_first_occurrence :
  first_occurrences ["total"; "label"; "total"] = ["total"; "label"].
Proof. reflexivity. Qed.

Lemma missing_output_raises_KeyError_witness :
  outcome (execute drv ["total"; "other"] None false
             (Some {[ "price" := PyObj (o_int 3) ]})) =
    inl (Raise KeyError "'other'").
Proof.
  destruct (missing_output_raises_KeyError drv ["total"] [] "other" None false
              (Some {[ "price" := PyObj (o_int 3) ]}) ex_nodes ex_user_nodes
              (<["total" := PyObj (o_int 12)]> (<["label" := PyObj (o_str "x")]> ∅)))
    as (_ & Hout & _).
  - reflexivity.
  - reflexivity.
  - reflexivity.
  - reflexivity.
  - intros c' ->%list_elem_of_singleton. by eexists.
  - reflexivity.
  - exact Hout.
Defined.

Lemma display_graph_revalidates_without_inputs_witness :
  outcome (execute drv ["total"] None true (Some {[ "price" := PyObj (o_int 3) ]})) =
    inl (Raise ValueError
      ("1 errors encountered:" ++ nl ++
       "  Error: Required input price not provided for nodes: ['total'].")) ∧
  outcome (execute drv ["total"] None false (Some {[ "price" := PyObj (o_int 3) ]})) =
    inr [("total", PyObj (o_int 12))].
Proof.
  destruct (display_graph_revalidates_without_inputs drv ["total"] None
              (Some {[ "price" := PyObj (o_int 3) ]})
              ex_nodes ex_user_nodes ex_nodes ex_user_nodes
              (Raise ValueError
                 ("1 errors encountered:" ++ nl ++
                  "  Error: Required input price not provided for nodes: ['total'].")))
    as [Hout _].
  - reflexivity.
  - reflexivity.
  - reflexivity.
  - reflexivity.
  - split; [exact Hout | reflexivity].
Defined.

Lemma init_keeps_graph_and_adapter_witness :
  adapter drv = ex_adapter ∧
  FunctionGraph_init ex_modules ∅ (adapter drv) = inr (graph drv) ∧
  events (__init__ ∅ ex_modules None) = [call_FunctionGraph ex_modules ∅].
Proof.
  destruct (init_keeps_graph_and_adapter ∅ ex_modules None drv) as (Ha & Hg & Hev).
  - reflexivity.
  - split; [exact Ha|]. split; [exact Hg | exact Hev].
Defined.

Lemma base_exceptions_pass_unlogged_witness :
  outcome (execute drv_exit ["total"] None false None) = inl (Raise SystemExit "1") ∧
  Forall (λ ev, is_logger_error ev = false)
    (events (execute drv_exit ["total"] None false None)).
Proof.
  destruct (base_exceptions_pass_unlogged ∅ [] None drv_exit ["total"] None false None
              (Raise SystemExit "1")) as [_ Hexec].
  - reflexivity.
  - split; [reflexivity|]. apply Hexec. reflexivity.
Defined.

End Hamilton.

